(** * The primitive implementations of the Myia debug VM

    A shallow embedding of [myia/prim/py_implementations.py].  Python values
    are a tagged union [Value]; lists, class instances and function
    objects, the objects the module copies and then writes to, live in an
    explicit store [heap] and are reached through references, so that
    aliasing and in-place updates are visible.  A primitive is a function in
    the monad [M], which threads the store and carries the exception a call
    raises. *)

From Stdlib Require Import ZArith Lia SpecFloat.
From stdpp Require Import base option list gmap strings.

Set Warnings "-register-all".
Set Default Proof Using "Type".

(** ** Primitive identifiers ([myia.prim.ops]) *)

Module primops.

Inductive Primitive :=
  | scalar_add | scalar_sub | scalar_mul | scalar_div | scalar_mod
  | scalar_pow | scalar_uadd | scalar_usub
  | scalar_eq | scalar_lt | scalar_gt | scalar_ne | scalar_le | scalar_ge
  | bool_not | typeof | hastype
  | cons_tuple | head | tail | getitem | setitem | getattr | setattr
  | shape | array_map | array_scan | array_reduce
  | distribute | reshape | dot | return_
  | list_map | resolve | partial | iter | hasnext | next.

#[global] Instance Primitive_eq_dec : EqDecision Primitive.
Proof. solve_decision. Defined.

Definition all : list Primitive :=
  [ scalar_add; scalar_sub; scalar_mul; scalar_div; scalar_mod;
    scalar_pow; scalar_uadd; scalar_usub;
    scalar_eq; scalar_lt; scalar_gt; scalar_ne; scalar_le; scalar_ge;
    bool_not; typeof; hastype;
    cons_tuple; head; tail; getitem; setitem; getattr; setattr;
    shape; array_map; array_scan; array_reduce;
    distribute; reshape; dot; return_;
    list_map; resolve; partial; iter; hasnext; next ].

Definition code (p : Primitive) : nat :=
  default 0%nat (fst <$> list_find (λ q, q = p) all).

Definition of_code (n : nat) : option Primitive := all !! n.

#[global] Instance Primitive_countable : Countable Primitive.
Proof. refine (inj_countable code of_code _). by intros []. Defined.

End primops.

(** ** Host classes

    The classes [type(x)] can return for the values below, and the classes
    of the type model that [hastype] accepts as a family. *)

Inductive PyClass :=
  | c_object | c_type | c_NoneType | c_bool | c_int | c_float | c_str
  | c_tuple | c_list | c_ndarray | c_function
  | c_complex | c_np_bool | c_np_int64 | c_np_float64
  | c_Bool | c_Int | c_Float | c_Tuple | c_List | c_External
  | c_user (n : nat).

#[global] Instance PyClass_eq_dec : EqDecision PyClass.
Proof. solve_decision. Defined.

(** ** The type model ([myia.dtype]) *)

Module types.

(** Modelled from the spec: the module [myia.dtype] is not part of the
    sources at hand.  Section 3 of the specification gives the closed set of
    tags and says that equality is structural, recursively through [Tuple]
    and [List].  [TypeOfType] stands for the class [types.Type] itself,
    which is what [typeof] returns for a type. *)
Inductive Ty :=
  | Bool
  | Int (bits : Z)
  | Float (bits : Z)
  | Tuple (elements : list Ty)
  | List (element_type : Ty)
  | External (t : PyClass)
  | TypeOfType.

Definition Ty_eq_dec : ∀ a b : Ty, {a = b} + {a ≠ b}.
Proof.
  fix go 1. intros a b.
  destruct a, b; try (right; discriminate); try (left; reflexivity).
  - destruct (Z.eq_dec bits bits0); [left; congruence | right; congruence].
  - destruct (Z.eq_dec bits bits0); [left; congruence | right; congruence].
  - destruct (List.list_eq_dec go elements elements0);
      [left; congruence | right; congruence].
  - destruct (go a b); [left; congruence | right; congruence].
  - destruct (decide (t = t0)); [left; congruence | right; congruence].
Defined.

#[global] Instance Ty_EqDecision : EqDecision Ty := Ty_eq_dec.

(** [isinstance(t, cls)] for a class [cls] of the type model. *)
Definition instance_of (t : Ty) (cls : PyClass) : bool :=
  match t, cls with
  | Bool, c_Bool | Int _, c_Int | Float _, c_Float
  | Tuple _, c_Tuple | List _, c_List | External _, c_External => true
  | _, _ => false
  end.

Definition is_Type_subclass (cls : PyClass) : bool :=
  match cls with
  | c_Bool | c_Int | c_Float | c_Tuple | c_List | c_External => true
  | _ => false
  end.

End types.

(** ** numpy arrays

    An array has an element type, a shape and its elements in row-major
    order.  Arrays are modelled by value: the module only ever writes to an
    array it has just made itself (the output operand of [np.nditer], the
    copy taken by [setitem]). *)

Inductive np_dtype := bool_ | int64 | float64.

#[global] Instance np_dtype_eq_dec : EqDecision np_dtype.
Proof. solve_decision. Defined.

Inductive npval :=
  | NBool (b : bool)
  | NInt (n : Z)
  | NFloat (f : spec_float).

#[global] Instance npval_inhabited : Inhabited npval := populate (NInt 0).

Record ndarray := mk_ndarray {
  nd_dtype : np_dtype;
  nd_shape : list nat;
  nd_data : list npval
}.

(** ** Values and the store

    Besides the numbers of the host language ([bool], [int], [float],
    [complex]) there are the scalars of numpy, [np.bool_], [np.int64] and
    [np.float64]: what indexing an array or adding an integer to a 0-d
    array returns.  Of these only [np.float64] is a subclass of a host
    number class ([float]). *)

Abbreviation loc := nat (only parsing).

Inductive Value :=
  | VNone
  | VBool (b : bool)
  | VInt (n : Z)
  | VFloat (f : spec_float)
  | VStr (s : string)
  | VTuple (elems : list Value)
  | VType (t : types.Ty)
  | VClass (c : PyClass)
  | VArray (a : ndarray)
  | VFun (f : nat)
  | VRef (l : loc)
  | VComplex (re im : spec_float)
  | VNpScalar (e : npval).

#[global] Instance Value_inhabited : Inhabited Value := populate VNone.

(** The code of a function object: a definition of the host program, or
    the closure [partial] makes of a callable and its first arguments. *)
Inductive fcode :=
  | Def (n : nat)
  | Closure (f : Value) (args : list Value).

(** The objects of the store: lists, plain class instances, and function
    objects, which carry an attribute dictionary too. *)
Inductive obj :=
  | OList (items : list Value)
  | OInstance (cls : nat) (attrs : gmap string Value)
  | OFunction (code : fcode) (attrs : gmap string Value).

Abbreviation heap := (list obj) (only parsing).

(** ** Exceptions and the evaluation monad *)

Inductive exn :=
  | TypeError | IndexError | ValueError | AttributeError
  | ZeroDivisionError | OverflowError | AssertionError
  | RecursionError | AxisError | SystemError.

#[global] Instance exn_eq_dec : EqDecision exn.
Proof. solve_decision. Defined.

Inductive res (A : Type) :=
  | Ok (a : A)
  | Raise (e : exn).
Arguments Ok {A} a.
Arguments Raise {A} e.

#[global] Instance res_ret : MRet res := @Ok.
#[global] Instance res_bind : MBind res := λ A B k r,
  match r with Ok a => k a | Raise e => Raise e end.
#[global] Instance res_fmap : FMap res := λ A B f r,
  match r with Ok a => Ok (f a) | Raise e => Raise e end.

(** A store-passing computation.  The store survives an exception: what a
    call allocated or wrote before it raised stays. *)
Definition M (A : Type) : Type := heap → res A * heap.

#[global] Instance M_ret : MRet M := λ A a h, (Ok a, h).
#[global] Instance M_bind : MBind M := λ A B k m h,
  match m h with
  | (Ok a, h') => k a h'
  | (Raise e, h') => (Raise e, h')
  end.

#[global] Instance M_fmap : FMap M := λ A B f m h,
  match m h with
  | (Ok a, h') => (Ok (f a), h')
  | (Raise e, h') => (Raise e, h')
  end.

Definition raise {A} (e : exn) : M A := λ h, (Raise e, h).
Definition lift {A} (r : res A) : M A := λ h, (r, h).
Definition read {A} (f : heap → res A) : M A := λ h, (f h, h).

(** A new object gets the next free address. *)
Definition alloc (o : obj) : M Value :=
  λ h, (Ok (VRef (length h)), h ++ [o]).

Fixpoint mapM_res {A B} (f : A → res B) (xs : list A) : res (list B) :=
  match xs with
  | [] => Ok []
  | x :: xs' => y ← f x; ys ← mapM_res f xs'; Ok (y :: ys)
  end.

(** A callable of the host language, applied to its positional arguments. *)
Definition pyfun := list Value → M Value.

(** The VM a VM-coupled implementation receives: of the VM only the two
    hooks [vm.call] and [vm.convert] are used. *)
Record VM := mk_VM {
  call : Value → list Value → M Value;
  convert : Value → M Value
}.

(** ** Built-in behaviour of the host language

    What the bodies of the primitives rely on: indexing, [len], [copy],
    item and attribute assignment, and the operators on integers.  The part
    of the host that belongs to numpy or to user code comes in through the
    class [PyHost]. *)

Inductive binop :=
  | Add | Sub | Mul | Div | Mod | Pow | Eq | Lt | Gt | Ne | Le | Ge.

Class PyHost := {
  (** an operator applied to operands that are neither two integers nor,
      under [+], two tuples *)
  host_binop : binop → Value → Value → M Value;
  (** unary minus on an operand that is not an integer *)
  host_neg : Value → M Value;
  (** calling a callable value *)
  py_call : Value → pyfun;
  (** [a[item]], [a[1:]], [a[item] = value] on a copy, and attribute
      assignment, for an array [a] *)
  np_getitem : ndarray → Value → M Value;
  np_tail : ndarray → M Value;
  np_setitem : ndarray → Value → Value → res ndarray;
  np_setattr : ndarray → string → Value → res ndarray;
  (** the truth value of [i == a] for an integer [i] and an array [a] *)
  np_eq_int : Z → ndarray → res bool;
  (** the truth value of [t == a] for a type [t] of the type model and an
      array [a]: numpy compares element by element, and an array of
      several elements has no truth value ([ValueError]) *)
  np_eq_type : types.Ty → ndarray → res bool;
  (** storing into an array element a value that is not a number of the
      element type's range *)
  np_cast_other : np_dtype → Value → res npval;
  (** [np.asanyarray] of a value that is not an array *)
  np_asanyarray : Value → M ndarray;
  np_broadcast_to : Value → Value → M Value;
  np_reshape : Value → Value → M Value;
  np_dot : Value → Value → M Value;
  (** [np.apply_along_axis] for a [func1d] that returns a scalar;
      [func1d] gets the element type and each 1-D slice, a view of the
      array: whether the view has a negative stride, and its elements in
      index order *)
  np_apply_along_axis :
    (np_dtype → bool → list npval → M Value) → Value → ndarray → M Value;
  (** [getattr] where the attribute is not in the dictionary of an
      instance or function, and [setattr] on a class, a type of the type
      model or an opaque callable *)
  host_getattr : Value → string → M Value;
  host_setattr : Value → string → Value → M Value;
  (** [list(map(f, xs))] *)
  py_list_of_map : pyfun → Value → M Value;
  (** [a, b = x] for an [x] that is neither a tuple, a list nor a string *)
  host_unpack2 : Value → M (Value * Value);
  (** how deep calls may nest *)
  recursion_limit : nat
}.

(** [bool] is a subclass of [int]: [True] counts as [1]. *)
Definition as_int (v : Value) : option Z :=
  match v with
  | VBool b => Some (Z.b2z b)
  | VInt n => Some n
  | _ => None
  end.

(** [operator.index]: integers, and 0-d integer arrays. *)
Definition as_index (v : Value) : option Z :=
  match v with
  | VBool b => Some (Z.b2z b)
  | VInt n => Some n
  | VArray (mk_ndarray int64 [] [NInt n]) => Some n
  | VNpScalar (NInt n) => Some n
  | _ => None
  end.

(** [xs[i]] on a sequence: a negative index counts from the end. *)
Definition seq_index {A} (xs : list A) (i : Z) : res A :=
  let n := Z.of_nat (length xs) in
  let j := if (i <? 0)%Z then (i + n)%Z else i in
  if ((0 <=? j) && (j <? n))%Z
  then match xs !! Z.to_nat j with Some x => Ok x | None => Raise IndexError end
  else Raise IndexError.

(** The position [xs[i] = v] writes to, when there is one. *)
Definition seq_slot {A} (xs : list A) (i : Z) : res nat :=
  let n := Z.of_nat (length xs) in
  let j := if (i <? 0)%Z then (i + n)%Z else i in
  if ((0 <=? j) && (j <? n))%Z then Ok (Z.to_nat j) else Raise IndexError.

Definition chars (s : string) : list Value :=
  (λ c, VStr (String c EmptyString)) <$> String.list_ascii_of_string s.

Definition class_of (h : heap) (x : Value) : PyClass :=
  match x with
  | VNone => c_NoneType
  | VBool _ => c_bool
  | VInt _ => c_int
  | VFloat _ => c_float
  | VStr _ => c_str
  | VTuple _ => c_tuple
  | VType types.Bool => c_Bool
  | VType (types.Int _) => c_Int
  | VType (types.Float _) => c_Float
  | VType (types.Tuple _) => c_Tuple
  | VType (types.List _) => c_List
  | VType (types.External _) => c_External
  | VType types.TypeOfType => c_type
  | VClass _ => c_type
  | VArray _ => c_ndarray
  | VFun _ => c_function
  | VComplex _ _ => c_complex
  | VNpScalar (NBool _) => c_np_bool
  | VNpScalar (NInt _) => c_np_int64
  | VNpScalar (NFloat _) => c_np_float64
  | VRef l =>
      match h !! l with
      | Some (OList _) => c_list
      | Some (OInstance c _) => c_user c
      | Some (OFunction _ _) => c_function
      | None => c_object
      end
  end.

(** [len(x)] *)
Definition py_len (h : heap) (x : Value) : res Z :=
  match x with
  | VTuple xs => Ok (Z.of_nat (length xs))
  | VStr s => Ok (Z.of_nat (String.length s))
  | VArray a =>
      match nd_shape a with
      | n :: _ => Ok (Z.of_nat n)
      | [] => Raise TypeError
      end
  | VRef l =>
      match h !! l with
      | Some (OList xs) => Ok (Z.of_nat (length xs))
      | _ => Raise TypeError
      end
  | _ => Raise TypeError
  end.

(** A numpy scalar seen as the 0-d array of its element. *)
Definition np_scalar_array (e : npval) : ndarray :=
  mk_ndarray
    match e with NBool _ => bool_ | NInt _ => int64 | NFloat _ => float64 end
    [] [e].

Section Builtins.
Context {host : PyHost}.

(** [data[item]] *)
Definition py_getitem (data item : Value) : M Value :=
  match data with
  | VTuple xs =>
      match as_index item with
      | Some i => lift (seq_index xs i)
      | None => raise TypeError
      end
  | VStr s =>
      match as_index item with
      | Some i => lift (seq_index (chars s) i)
      | None => raise TypeError
      end
  | VArray a => np_getitem a item
  | VNpScalar e => np_getitem (np_scalar_array e) item
  | VRef l => λ h,
      match h !! l with
      | Some (OList xs) =>
          match as_index item with
          | Some i => (seq_index xs i, h)
          | None => (Raise TypeError, h)
          end
      | _ => (Raise TypeError, h)
      end
  | _ => raise TypeError
  end.

(** [data[1:]]: a slice never raises on a short sequence; on a list it
    makes a new list. *)
Definition py_tail (data : Value) : M Value :=
  match data with
  | VTuple xs => mret (VTuple (drop 1 xs))
  | VStr s => mret (VStr (String.substring 1 (String.length s - 1) s))
  | VArray a => np_tail a
  | VNpScalar e => np_tail (np_scalar_array e)
  | VRef l => λ h,
      match h !! l with
      | Some (OList xs) => alloc (OList (drop 1 xs)) h
      | _ => (Raise TypeError, h)
      end
  | _ => raise TypeError
  end.

(** [copy.copy]: a list or an instance is duplicated one level deep, into
    a new object; an immutable value is returned as it is, and so is a
    function, which [copy] treats as atomic. *)
Definition copy (x : Value) : M Value :=
  match x with
  | VRef l => λ h,
      match h !! l with
      | Some (OFunction _ _) => (Ok x, h)
      | Some o => alloc o h
      | None => (Raise SystemError, h)
      end
  | _ => mret x
  end.

(** The statement [data[item] = value]; the result is what [data] denotes
    afterwards (the same reference for an object of the store). *)
Definition store_item (data item value : Value) : M Value :=
  match data with
  | VRef l => λ h,
      match h !! l with
      | Some (OList xs) =>
          match as_index item with
          | Some i =>
              match seq_slot xs i with
              | Ok k => (Ok data, <[l := OList (<[k := value]> xs)]> h)
              | Raise e => (Raise e, h)
              end
          | None => (Raise TypeError, h)
          end
      | _ => (Raise TypeError, h)
      end
  | VArray a => lift (VArray <$> np_setitem a item value)
  | _ => raise TypeError
  end.

(** The built-in [setattr(data, attr, value)]. *)
Definition py_setattr (data attr value : Value) : M Value :=
  match attr with
  | VStr name =>
      match data with
      | VRef l => λ h,
          match h !! l with
          | Some (OInstance c attrs) =>
              (Ok data, <[l := OInstance c (<[name := value]> attrs)]> h)
          | Some (OFunction code attrs) =>
              (Ok data, <[l := OFunction code (<[name := value]> attrs)]> h)
          | _ => (Raise AttributeError, h)
          end
      | VArray a => lift (VArray <$> np_setattr a name value)
      | VType _ | VClass _ | VFun _ => host_setattr data name value
      | _ => raise AttributeError
      end
  | _ => raise TypeError
  end.

(** The built-in [getattr(data, attr)]. *)
Definition py_getattr (data attr : Value) : M Value :=
  match attr with
  | VStr name =>
      match data with
      | VRef l => λ h,
          match h !! l with
          | Some (OInstance _ attrs) | Some (OFunction _ attrs) =>
              match attrs !! name with
              | Some v => (Ok v, h)
              | None => host_getattr data name h
              end
          | _ => host_getattr data name h
          end
      | VArray a =>
          if decide (name = "shape")
          then mret (VTuple ((λ n, VInt (Z.of_nat n)) <$> nd_shape a))
          else host_getattr data name
      | _ => host_getattr data name
      end
  | _ => raise TypeError
  end.

(** Operators on two integers.  [None] where the result is a float. *)
Definition int_binop (op : binop) (a b : Z) : option (res Value) :=
  match op with
  | Add => Some (Ok (VInt (a + b)))
  | Sub => Some (Ok (VInt (a - b)))
  | Mul => Some (Ok (VInt (a * b)))
  | Div => if (b =? 0)%Z then Some (Raise ZeroDivisionError) else None
  | Mod => if (b =? 0)%Z then Some (Raise ZeroDivisionError)
           else Some (Ok (VInt (a `mod` b)))
  | Pow => if (0 <=? b)%Z then Some (Ok (VInt (a ^ b)))
           else if (a =? 0)%Z then Some (Raise ZeroDivisionError) else None
  | Eq => Some (Ok (VBool (a =? b)%Z))
  | Lt => Some (Ok (VBool (a <? b)%Z))
  | Gt => Some (Ok (VBool (b <? a)%Z))
  | Ne => Some (Ok (VBool (negb (a =? b)%Z)))
  | Le => Some (Ok (VBool (a <=? b)%Z))
  | Ge => Some (Ok (VBool (b <=? a)%Z))
  end.

(** [x op y] *)
Definition py_binop (op : binop) (x y : Value) : M Value :=
  match as_int x, as_int y with
  | Some a, Some b =>
      match int_binop op a b with
      | Some r => lift r
      | None => host_binop op x y
      end
  | _, _ =>
      match op, x, y with
      | Add, VTuple xs, VTuple ys => mret (VTuple (xs ++ ys))
      | _, _, _ => host_binop op x y
      end
  end.

(** [-x] *)
Definition py_neg (x : Value) : M Value :=
  match as_int x with
  | Some a => mret (VInt (- a))
  | None => host_neg x
  end.

(** The value of a float when it is an integer. *)
Definition float_to_Z (f : spec_float) : option Z :=
  match f with
  | S754_zero _ => Some 0%Z
  | S754_finite s m e =>
      let mag :=
        if (0 <=? e)%Z then Some (Z.pos m * 2 ^ e)%Z
        else if (Z.pos m `mod` 2 ^ (- e) =? 0)%Z
             then Some (Z.pos m `div` 2 ^ (- e))%Z else None in
      (λ v, if s then (- v)%Z else v) <$> mag
  | _ => None
  end.

(** The truth value of [i == item] for an integer [i]. *)
Definition py_int_eq (i : Z) (item : Value) : res bool :=
  match item with
  | VBool b => Ok (i =? Z.b2z b)%Z
  | VInt j => Ok (i =? j)%Z
  | VFloat f | VNpScalar (NFloat f) | VComplex f (S754_zero _) =>
      Ok match float_to_Z f with Some j => (i =? j)%Z | None => false end
  | VNpScalar (NBool b) => Ok (i =? Z.b2z b)%Z
  | VNpScalar (NInt j) => Ok (i =? j)%Z
  | VArray a => np_eq_int i a
  | _ => Ok false
  end.

End Builtins.

(** ** The primitives *)

Section Primitives.
Context {host : PyHost}.

(** [isinstance(x, (int, float))] holds of [bool], [int], [float] and
    [np.float64], and of no other number. *)
Fixpoint _assert_scalar (args : list Value) : res unit :=
  match args with
  | [] => Ok ()
  | x :: rest =>
      match x with
      | VArray a =>
          if decide (nd_shape a = []) then _assert_scalar rest
          else Raise TypeError
      | VBool _ | VInt _ | VFloat _ => _assert_scalar rest
      | VNpScalar (NFloat _) => _assert_scalar rest
      | _ => Raise TypeError
      end
  end.

Definition scalar_add (x y : Value) : M Value :=
  _ ← lift (_assert_scalar [x; y]); py_binop Add x y.

Definition scalar_sub (x y : Value) : M Value :=
  _ ← lift (_assert_scalar [x; y]); py_binop Sub x y.

Definition scalar_mul (x y : Value) : M Value :=
  _ ← lift (_assert_scalar [x; y]); py_binop Mul x y.

Definition scalar_div (x y : Value) : M Value :=
  _ ← lift (_assert_scalar [x; y]); py_binop Div x y.

Definition scalar_mod (x y : Value) : M Value :=
  _ ← lift (_assert_scalar [x; y]); py_binop Mod x y.

Definition scalar_pow (x y : Value) : M Value :=
  _ ← lift (_assert_scalar [x; y]); py_binop Pow x y.

Definition scalar_uadd (x : Value) : M Value :=
  _ ← lift (_assert_scalar [x]); mret x.

Definition scalar_usub (x : Value) : M Value :=
  _ ← lift (_assert_scalar [x]); py_neg x.

Definition scalar_eq (x y : Value) : M Value :=
  _ ← lift (_assert_scalar [x; y]); py_binop Eq x y.

Definition scalar_lt (x y : Value) : M Value :=
  _ ← lift (_assert_scalar [x; y]); py_binop Lt x y.

Definition scalar_gt (x y : Value) : M Value :=
  _ ← lift (_assert_scalar [x; y]); py_binop Gt x y.

Definition scalar_ne (x y : Value) : M Value :=
  _ ← lift (_assert_scalar [x; y]); py_binop Ne x y.

Definition scalar_le (x y : Value) : M Value :=
  _ ← lift (_assert_scalar [x; y]); py_binop Le x y.

Definition scalar_ge (x y : Value) : M Value :=
  _ ← lift (_assert_scalar [x; y]); py_binop Ge x y.

Definition bool_not (x : Value) : M Value :=
  match x with
  | VBool b => mret (VBool (negb b))
  | _ => raise AssertionError
  end.

(** [typeof] calls itself on the elements of a tuple or list; [depth] is
    how many nested calls the interpreter still allows.  Lists are read
    from the store, where a list may contain itself: beyond the limit the
    call raises [RecursionError]. *)
Fixpoint typeof (depth : nat) (h : heap) (x : Value) : res types.Ty :=
  let nested : Value → res types.Ty :=
    match depth with
    | O => λ _, Raise RecursionError
    | S d => typeof d h
    end in
  match x with
  | VType _ | VClass _ => Ok types.TypeOfType
  | VBool _ => Ok types.Bool
  | VInt _ => Ok (types.Int 64)
  | VFloat _ | VNpScalar (NFloat _) => Ok (types.Float 64)
  | VTuple xs => types.Tuple <$> mapM_res nested xs
  | VRef l =>
      match h !! l with
      | Some (OList (x0 :: xs)) =>
          ts ← mapM_res nested (x0 :: xs);
          match ts with
          | type0 :: rest =>
              if existsb (λ t, bool_decide (t ≠ type0)) rest
              then Raise TypeError
              else Ok (types.List type0)
          | [] => Raise ValueError
          end
      | _ => Ok (types.External (class_of h x))
      end
  | _ => Ok (types.External (class_of h x))
  end.

(** The test [t == model] comes first: against an array it is numpy's
    comparison, whose truth value the [if] then asks for; an array is not
    a class, so a false answer there is the answer of the call. *)
Definition hastype_helper (t : types.Ty) (model : Value) : res bool :=
  match model with
  | VType types.TypeOfType => Ok true
  | VType m => Ok (bool_decide (t = m))
  | VClass c => Ok (types.is_Type_subclass c && types.instance_of t c)
  | VArray a => np_eq_type t a
  | _ => Ok false
  end.

Definition hastype (depth : nat) (x t : Value) : M Value :=
  ty ← read (λ h, typeof depth h x);
  b ← lift (hastype_helper ty t);
  mret (VBool b).

Definition cons_tuple (head tail : Value) : M Value :=
  py_binop Add (VTuple [head]) tail.

Definition head (tup : Value) : M Value := py_getitem tup (VInt 0).

Definition tail (tup : Value) : M Value := py_tail tup.

Definition getitem (data item : Value) : M Value := py_getitem data item.

Definition _vm_getitem (vm : VM) (data item : Value) : M Value :=
  v ← py_getitem data item; convert vm v.

(** The generator of [setitem]:
    [value if i == item else x for i, x in enumerate(data)], from
    position [i] on. *)
Fixpoint replace_where (item value : Value) (i : Z) (xs : list Value)
  : res (list Value) :=
  match xs with
  | [] => Ok []
  | x :: xs' =>
      b ← py_int_eq i item;
      ys ← replace_where item value (i + 1) xs';
      Ok ((if b : bool then value else x) :: ys)
  end.

Definition setitem (data item value : Value) : M Value :=
  match data with
  | VTuple xs => lift (VTuple <$> replace_where item value 0 xs)
  | _ => data2 ← copy data; store_item data2 item value
  end.

Definition _vm_getattr (vm : VM) (data attr : Value) : M Value :=
  v ← py_getattr data attr; convert vm v.

Definition setattr (data attr value : Value) : M Value :=
  data2 ← copy data; py_setattr data2 attr value.

Definition shape (array : Value) : M Value :=
  py_getattr array (VStr "shape").

(** *** Array primitives *)

Definition value_of (e : npval) : Value :=
  match e with
  | NBool b => VBool b
  | NInt n => VInt n
  | NFloat f => VFloat f
  end.

(** A 0-d array: what [np.nditer] hands out for one element, a view of
    that element. *)
Definition item0 (dt : np_dtype) (e : npval) : Value :=
  VArray (mk_ndarray dt [] [e]).

Definition scalar_of (v : Value) : option npval :=
  match v with
  | VBool b => Some (NBool b)
  | VInt n => Some (NInt n)
  | VFloat f => Some (NFloat f)
  | VArray (mk_ndarray _ [] [e]) => Some e
  | VNpScalar e => Some e
  | _ => None
  end.

Definition in_int64 (n : Z) : bool :=
  ((- 2 ^ 63 <=? n) && (n <? 2 ^ 63))%Z.

(** The integer part of a finite float, towards zero. *)
Definition float_trunc (f : spec_float) : option Z :=
  match f with
  | S754_zero _ => Some 0%Z
  | S754_finite s m e =>
      let mag := if (0 <=? e)%Z then (Z.pos m * 2 ^ e)%Z
                 else (Z.pos m `div` 2 ^ (- e))%Z in
      Some (if s then (- mag)%Z else mag)
  | _ => None
  end.

Definition float_is_zero (f : spec_float) : bool :=
  match f with S754_zero _ => true | _ => false end.

(** The double nearest to an integer, when there is one. *)
Definition float_of_Z (n : Z) : option spec_float :=
  match binary_normalize 53 1024 n 0 false with
  | S754_infinity _ | S754_nan => None
  | f => Some f
  end.

(** The assignment [y[...] = v] into an element of type [dt] converts
    [v] to [dt]: a float is cut to its integer part for an integer array,
    a number is true for a boolean array unless it is zero.  What numpy
    does with a value that is not a number, or not in the range of [dt],
    is the host's. *)
Definition np_cast (dt : np_dtype) (v : Value) : res npval :=
  match scalar_of v with
  | None => np_cast_other dt v
  | Some e =>
      match dt, e with
      | bool_, NBool b => Ok (NBool b)
      | bool_, NInt n => Ok (NBool (negb (n =? 0)%Z))
      | bool_, NFloat f => Ok (NBool (negb (float_is_zero f)))
      | int64, NBool b => Ok (NInt (Z.b2z b))
      | int64, NInt n =>
          if in_int64 n then Ok (NInt n) else np_cast_other dt v
      | int64, NFloat f =>
          match float_trunc f with
          | Some n => if in_int64 n then Ok (NInt n) else np_cast_other dt v
          | None => np_cast_other dt v
          end
      | float64, NBool b =>
          Ok (NFloat (if b then binary_normalize 53 1024 1 0 false
                      else S754_zero false))
      | float64, NInt n =>
          match float_of_Z n with
          | Some f => Ok (NFloat f)
          | None => np_cast_other dt v
          end
      | float64, NFloat f => Ok (NFloat f)
      end
  end.

Definition asanyarray (array : Value) : M ndarray :=
  match array with
  | VArray a => mret a
  | _ => np_asanyarray array
  end.

Fixpoint mapM_st {A B} (f : A → M B) (xs : list A) : M (list B) :=
  match xs with
  | [] => mret []
  | x :: xs' => y ← f x; ys ← mapM_st f xs'; mret (y :: ys)
  end.

(** The 1-D slice of [d] along an axis of length [len], at position [o]
    of the axes before it and [i] of the axes after it ([inner] is the
    number of positions after). *)
Definition slice_at (len inner : nat) (d : list npval) (o i : nat)
  : list npval :=
  (λ j, d !!! ((o * len + j) * inner + i)%nat) <$> seq 0 len.

Definition slices (outer len inner : nat) (d : list npval)
  : list (list npval) :=
  flat_map (λ o, slice_at len inner d o <$> seq 0 inner) (seq 0 outer).

(** The per-slice results put back along the axis. *)
Definition gather (outer len inner : nat) (rs : list (list npval))
  : list npval :=
  (λ k, let o := (k / (len * inner))%nat in
        let j := ((k / inner) `mod` len)%nat in
        let i := (k `mod` inner)%nat in
        (rs !!! (o * inner + i)%nat) !!! j) <$> seq 0 (outer * len * inner).

(** The range of a C [int]. *)
Definition in_c_int (i : Z) : bool :=
  ((- 2 ^ 31 <=? i) && (i <? 2 ^ 31))%Z.

(** numpy's [normalize_axis_index] reads the axis as a C [int]: an
    integer that does not fit raises [OverflowError], one that fits and
    is outside [-nd, nd) raises [AxisError].  (An array has a few dozen
    axes at most, so an axis inside the range always fits.) *)
Definition normalize_axis_index (axis : Value) (nd : nat) : res nat :=
  match as_index axis with
  | None => Raise TypeError
  | Some i =>
      let n := Z.of_nat nd in
      if ((- n <=? i) && (i <? n))%Z
      then Ok (Z.to_nat (if (i <? 0)%Z then i + n else i)%Z)
      else if in_c_int i then Raise AxisError else Raise OverflowError
  end.

(** [np.apply_along_axis(func1d, axis, arr)] for a [func1d] that returns a
    1-D array of the element type and length of its argument, which the
    two callers below do.  The slices are visited in row-major order of
    the remaining axes. *)
Definition apply_along_axis
    (func1d : np_dtype → list npval → M (list npval))
    (axis : Value) (arr : ndarray) : M ndarray :=
  k ← lift (normalize_axis_index axis (length (nd_shape arr)));
  let outer := foldr Nat.mul 1%nat (take k (nd_shape arr)) in
  let len := default 0%nat (nd_shape arr !! k) in
  let inner := foldr Nat.mul 1%nat (drop (S k) (nd_shape arr)) in
  if decide (outer * inner = 0)%nat then raise ValueError
  else
    rs ← mapM_st (func1d (nd_dtype arr)) (slices outer len inner (nd_data arr));
    mret (mk_ndarray (nd_dtype arr) (nd_shape arr) (gather outer len inner rs)).

(** [np.nditer([ary, None])]: the iterator refuses an operand without
    elements; it allocates the operand given as [None] with the shape and
    the element type of [ary], and hands out the elements of both one by
    one, in index order: with an operand to allocate it reverses no axis.
    [np.nditer([ary])], which [array_reduce] uses, refuses an empty
    operand too; the order of its walk is [memory_order] below. *)
Definition nditer {A} (ary : list npval) (body : M A) : M A :=
  match ary with
  | [] => raise ValueError
  | _ => body
  end.

Fixpoint map_loop (fn : pyfun) (dt : np_dtype) (xs : list npval)
  : M (list npval) :=
  match xs with
  | [] => mret []
  | x :: xs' =>
      v ← fn [item0 dt x];
      y ← lift (np_cast dt v);
      ys ← map_loop fn dt xs';
      mret (y :: ys)
  end.

Definition array_map (fn : pyfun) (array : Value) : M Value :=
  a ← asanyarray array;
  VArray <$> apply_along_axis
    (λ dt ary, nditer ary (map_loop fn dt ary)) (VInt 0) a.

Definition _array_map_vm (vm : VM) (fn array : Value) : M Value :=
  let fn_ : pyfun := λ args,
    match args with
    | [x] => call vm fn [x]
    | _ => raise TypeError
    end in
  array_map fn_ array.

(** The loop of [array_scan]: [val] is the running value, and [y[...] = val]
    stores it into the output, an array of element type [dt]. *)
Fixpoint scan_loop (fn : pyfun) (dt : np_dtype) (val : Value)
    (xs : list npval) : M (list npval) :=
  match xs with
  | [] => mret []
  | x :: xs' =>
      val' ← fn [val; item0 dt x];
      y ← lift (np_cast dt val');
      ys ← scan_loop fn dt val' xs';
      mret (y :: ys)
  end.

Definition array_scan (fn : pyfun) (init array axis : Value) : M Value :=
  a ← asanyarray array;
  VArray <$> apply_along_axis
    (λ dt ary, nditer ary (scan_loop fn dt init ary)) axis a.

Definition _array_scan_vm (vm : VM) (fn init array axis : Value) : M Value :=
  let fn_ : pyfun := λ args,
    match args with
    | [a; b] => call vm fn [a; b]
    | _ => raise TypeError
    end in
  array_scan fn_ init array axis.

(** [np.nditer([ary])], with a single operand and none to allocate,
    walks the elements in the order they lie in memory: index order, or
    the reverse for a view with a negative stride.  (With an operand to
    allocate, as in [array_map] and [array_scan], the iterator keeps the
    index order.) *)
Definition memory_order (negative_stride : bool) (ary : list npval)
  : list npval :=
  if negative_stride then reverse ary else ary.

(** The loop of [array_reduce] over the elements as the iterator hands
    them out. *)
Fixpoint reduce_loop (fn : pyfun) (dt : np_dtype) (val : Value)
    (xs : list npval) : M Value :=
  match xs with
  | [] => mret val
  | x :: xs' => val' ← fn [val; item0 dt x]; reduce_loop fn dt val' xs'
  end.

Definition array_reduce (fn : pyfun) (init array axis : Value) : M Value :=
  a ← asanyarray array;
  np_apply_along_axis
    (λ dt negative_stride ary,
       nditer ary
         (reduce_loop fn dt init (memory_order negative_stride ary)))
    axis a.

Definition _array_reduce_vm (vm : VM) (fn init array axis : Value)
  : M Value :=
  let fn_ : pyfun := λ args,
    match args with
    | [a; b] => call vm fn [a; b]
    | _ => raise TypeError
    end in
  array_reduce fn_ init array axis.

Definition distribute (v shape : Value) : M Value := np_broadcast_to v shape.

Definition reshape (v shape : Value) : M Value := np_reshape v shape.

Definition dot (a b : Value) : M Value := np_dot a b.

Definition return_ (x : Value) : M Value := mret x.

Definition list_map (f : pyfun) (xs : Value) : M Value :=
  py_list_of_map f xs.

Definition _list_map_vm (vm : VM) (f xs : Value) : M Value :=
  let f_ : pyfun := λ args, call vm f args in
  py_list_of_map f_ xs.

Definition _resolve_vm (vm : VM) (data item : Value) : M Value :=
  value ← py_getitem data item; convert vm value.

(** [partial] returns a new function object, the closure [res] over [f]
    and the arguments given so far. *)
Definition partial (f : Value) (args : list Value) : M Value :=
  alloc (OFunction (Closure f args) ∅).

(** Calling a callable value: the closure made by [partial] calls [f] on
    [args] followed by the further arguments, one call deeper; any other
    callable is the host's. *)
Fixpoint call_value (depth : nat) (f : Value) (others : list Value)
  : M Value :=
  match f with
  | VRef l => λ h,
      match h !! l with
      | Some (OFunction (Closure g args) _) =>
          match depth with
          | O => (Raise RecursionError, h)
          | S d => call_value d g (args ++ others) h
          end
      | _ => py_call f others h
      end
  | _ => py_call f others
  end.

(** *** The iterator protocol *)

(** The unpacking [n, data = it]. *)
Definition unpack2 (it : Value) : M (Value * Value) :=
  match it with
  | VTuple [n; data] => mret (n, data)
  | VTuple _ => raise ValueError
  | VStr s =>
      match chars s with
      | [n; data] => mret (n, data)
      | _ => raise ValueError
      end
  | VRef l => λ h,
      match h !! l with
      | Some (OList [n; data]) => (Ok (n, data), h)
      | Some (OList _) => (Raise ValueError, h)
      | _ => host_unpack2 it h
      end
  | _ => host_unpack2 it
  end.

Definition _iter (xs : Value) : M Value := mret (VTuple [VInt 0; xs]).

Definition _hasnext (it : Value) : M Value :=
  '(n, data) ← unpack2 it;
  len ← read (λ h, py_len h data);
  py_binop Lt n (VInt len).

Definition _next (it : Value) : M Value :=
  '(n, data) ← unpack2 it;
  x ← py_getitem data n;
  n1 ← py_binop Add n (VInt 1);
  mret (VTuple [x; VTuple [n1; data]]).

End Primitives.

(** ** The two registries

    Modelled from the spec: the class [Registry] of [myia.utils] is not
    part of the sources at hand.  By section 3 of the specification a
    registry maps a primitive identifier to an implementation, and
    [registry.register(prim)] is a decorator that files the function
    under [prim].  The two registries are built by running the decorators
    of the module from top to bottom. *)

Definition impl := list Value → M Value.
Definition vm_impl := VM → list Value → M Value.

Record Registries := mk_Registries {
  py_table : gmap primops.Primitive impl;
  vm_table : gmap primops.Primitive vm_impl
}.

Definition py_register (prim : primops.Primitive) (fn : impl)
    (r : Registries) : Registries :=
  mk_Registries (<[prim := fn]> (py_table r)) (vm_table r).

Definition vm_register (prim : primops.Primitive) (fn : vm_impl)
    (r : Registries) : Registries :=
  mk_Registries (py_table r) (<[prim := fn]> (vm_table r)).

(** The decorator [register(prim)] applied to [fn]: the VM entry is a
    lambda that drops its first argument [vm] and passes the others on to
    [fn]. *)
Definition register (prim : primops.Primitive) (fn : impl)
    (r : Registries) : Registries :=
  py_register prim fn (vm_register prim (λ vm args, fn args) r).

(** A call with the wrong number of arguments raises [TypeError]. *)
Definition arity1 (f : Value → M Value) : impl := λ args,
  match args with [x] => f x | _ => raise TypeError end.

Definition arity2 (f : Value → Value → M Value) : impl := λ args,
  match args with [x; y] => f x y | _ => raise TypeError end.

Definition arity3 (f : Value → Value → Value → M Value) : impl := λ args,
  match args with [x; y; z] => f x y z | _ => raise TypeError end.

Definition arity4 (f : Value → Value → Value → Value → M Value) : impl :=
  λ args,
  match args with [x; y; z; w] => f x y z w | _ => raise TypeError end.

Definition variadic1 (f : Value → list Value → M Value) : impl := λ args,
  match args with x :: rest => f x rest | [] => raise TypeError end.

(** One decorated definition of the module. *)
Inductive decl :=
  | Both (prim : primops.Primitive) (fn : impl)
  | PyOnly (prim : primops.Primitive) (fn : impl)
  | VmOnly (prim : primops.Primitive) (fn : vm_impl).

Definition run_decl (r : Registries) (d : decl) : Registries :=
  match d with
  | Both prim fn => register prim fn r
  | PyOnly prim fn => py_register prim fn r
  | VmOnly prim fn => vm_register prim fn r
  end.

Definition load (ds : list decl) : Registries :=
  foldl run_decl (mk_Registries ∅ ∅) ds.

Section Module.
Context {host : PyHost}.

(** The decorated definitions of [py_implementations.py], in source
    order. *)
Definition module_decls : list decl :=
  [ Both primops.scalar_add (arity2 scalar_add);
    Both primops.scalar_sub (arity2 scalar_sub);
    Both primops.scalar_mul (arity2 scalar_mul);
    Both primops.scalar_div (arity2 scalar_div);
    Both primops.scalar_mod (arity2 scalar_mod);
    Both primops.scalar_pow (arity2 scalar_pow);
    Both primops.scalar_uadd (arity1 scalar_uadd);
    Both primops.scalar_usub (arity1 scalar_usub);
    Both primops.scalar_eq (arity2 scalar_eq);
    Both primops.scalar_lt (arity2 scalar_lt);
    Both primops.scalar_gt (arity2 scalar_gt);
    Both primops.scalar_ne (arity2 scalar_ne);
    Both primops.scalar_le (arity2 scalar_le);
    Both primops.scalar_ge (arity2 scalar_ge);
    Both primops.bool_not (arity1 bool_not);
    Both primops.typeof
      (arity1 (λ x, VType <$> read (λ h, typeof recursion_limit h x)));
    Both primops.hastype (arity2 (hastype recursion_limit));
    Both primops.cons_tuple (arity2 cons_tuple);
    Both primops.head (arity1 head);
    Both primops.tail (arity1 tail);
    PyOnly primops.getitem (arity2 getitem);
    VmOnly primops.getitem (λ vm, arity2 (_vm_getitem vm));
    Both primops.setitem (arity3 setitem);
    VmOnly primops.getattr (λ vm, arity2 (_vm_getattr vm));
    Both primops.setattr (arity3 setattr);
    Both primops.shape (arity1 shape);
    PyOnly primops.array_map
      (arity2 (λ fn, array_map (call_value recursion_limit fn)));
    VmOnly primops.array_map (λ vm, arity2 (_array_map_vm vm));
    PyOnly primops.array_scan
      (arity4 (λ fn, array_scan (call_value recursion_limit fn)));
    VmOnly primops.array_scan (λ vm, arity4 (_array_scan_vm vm));
    PyOnly primops.array_reduce
      (arity4 (λ fn, array_reduce (call_value recursion_limit fn)));
    VmOnly primops.array_reduce (λ vm, arity4 (_array_reduce_vm vm));
    Both primops.distribute (arity2 distribute);
    Both primops.reshape (arity2 reshape);
    Both primops.dot (arity2 dot);
    Both primops.return_ (arity1 return_);
    PyOnly primops.list_map
      (arity2 (λ f, list_map (call_value recursion_limit f)));
    VmOnly primops.list_map (λ vm, arity2 (_list_map_vm vm));
    VmOnly primops.resolve (λ vm, arity2 (_resolve_vm vm));
    PyOnly primops.partial (variadic1 partial);
    Both primops.iter (arity1 _iter);
    Both primops.hasnext (arity1 _hasnext);
    Both primops.next (arity1 _next) ].

Definition py_implementations : gmap primops.Primitive impl :=
  py_table (load module_decls).

Definition vm_implementations : gmap primops.Primitive vm_impl :=
  vm_table (load module_decls).

End Module.

(** ** Notions used by the statements *)

(** A host without numpy, floating-point arithmetic or callables: whatever
    is left to the host raises.  It serves to run the primitives on
    integers, tuples and lists. *)
Definition bare_host : PyHost := {|
  host_binop := λ _ _ _, raise TypeError;
  host_neg := λ _, raise TypeError;
  py_call := λ _ _, raise TypeError;
  np_getitem := λ _ _, raise TypeError;
  np_tail := λ _, raise TypeError;
  np_setitem := λ _ _ _, Raise TypeError;
  np_setattr := λ _ _ _, Raise AttributeError;
  np_eq_int := λ _ _, Raise ValueError;
  np_eq_type := λ _ _, Raise ValueError;
  np_cast_other := λ _ _, Raise TypeError;
  np_asanyarray := λ _, raise TypeError;
  np_broadcast_to := λ _ _, raise TypeError;
  np_reshape := λ _ _, raise TypeError;
  np_dot := λ _ _, raise TypeError;
  np_apply_along_axis := λ _ _ _, raise TypeError;
  host_getattr := λ _ _, raise AttributeError;
  host_setattr := λ _ _ _, raise AttributeError;
  py_list_of_map := λ _ _, raise TypeError;
  host_unpack2 := λ _, raise TypeError;
  recursion_limit := 1000
|}.

(** What [_assert_scalar] lets through: an instance of [int] or [float]
    ([bool], a subclass of [int], and [np.float64], a subclass of [float],
    included) or a 0-d array.  A [complex], and a numpy scalar that is not
    a [float], such as [np.int64], are not among them. *)
Definition is_scalar (x : Value) : Prop :=
  match x with
  | VBool _ | VInt _ | VFloat _ => True
  | VNpScalar (NFloat _) => True
  | VArray a => nd_shape a = []
  | _ => False
  end.

(** An array of rank at least 1. *)
Definition is_ranked_array (x : Value) : Prop :=
  match x with
  | VArray a => nd_shape a ≠ []
  | _ => False
  end.

(** The arguments [copy.copy] protects from a later write: immutable
    values, and the objects it duplicates.  A function object is returned
    by [copy] as it is; what classes, types of the type model and opaque
    callables do is the host's. *)
Definition copy_protects (h : heap) (d : Value) : Prop :=
  match d with
  | VType _ | VClass _ | VFun _ => False
  | VRef l =>
      match h !! l with
      | Some (OFunction _ _) => False
      | _ => True
      end
  | _ => True
  end.

(** The elements of a tuple or of a list of the store. *)
Definition sequence_of (h : heap) (d : Value) : option (list Value) :=
  match d with
  | VTuple xs => Some xs
  | VRef l =>
      match h !! l with
      | Some (OList xs) => Some xs
      | _ => None
      end
  | _ => None
  end.

(** The specification's inclusive running fold: position 0 is
    [g init x0], position [i] is [g] of position [i-1] and [xi]. *)
Fixpoint inclusive_scan {A B} (g : B → A → B) (prev : B) (xs : list A)
  : list B :=
  match xs with
  | [] => []
  | x :: xs' => g prev x :: inclusive_scan g (g prev x) xs'
  end.

(** The running values of the specification over the elements
    [x0, x1, ...] of a slice: [acc_0 = fn(prev, x0)] and
    [acc_i = fn(acc_(i-1), x_i)], the calls of [fn] being made in this
    order. *)
Fixpoint running_fold (fn : pyfun) (prev : Value) (xs : list Value)
  : M (list Value) :=
  match xs with
  | [] => mret []
  | x :: xs' =>
      acc ← fn [prev; x];
      accs ← running_fold fn acc xs';
      mret (acc :: accs)
  end.

(** Storing [v] into an element of type [dt] and reading it back gives
    [v] again. *)
Definition stored_exactly `{PyHost} (dt : np_dtype) (v : Value) : Prop :=
  ∃ e, np_cast dt v = Ok e ∧ value_of e = v.

(** Addition of integers, an operand being read through a 0-d integer
    array as [np.nditer] passes it. *)
Definition int_add : pyfun := λ args,
  match args with
  | [a; b] =>
      match as_int a, scalar_of b with
      | Some m, Some (NInt n) => mret (VInt (m + n))
      | _, _ => raise TypeError
      end
  | _ => raise TypeError
  end.

(** [lambda a, b: a] *)
Definition keep_first : pyfun := λ args,
  match args with
  | [a; _] => mret a
  | _ => raise TypeError
  end.


(** [k] successive calls of [next], each on the iterator the call before
    returned; the elements they yield and the last iterator. *)
Fixpoint nexts `{PyHost} (k : nat) (it : Value) : M (list Value * Value) :=
  match k with
  | O => mret ([], it)
  | S k' =>
      r ← _next it;
      match r with
      | VTuple [x; it'] =>
          '(xs, it'') ← nexts k' it'; mret (x :: xs, it'')
      | _ => raise SystemError
      end
  end.

(** The two entries of [prim] agree: the VM entry ignores the VM it is
    given and is the pure entry on the remaining arguments. *)
Definition agree (r : Registries) (prim : primops.Primitive) : Prop :=
  ∃ (fn : impl) (vfn : vm_impl),
    py_table r !! prim = Some fn ∧
    vm_table r !! prim = Some vfn ∧
    ∀ vm args h, vfn vm args h = fn args h.

Definition decl_prim (d : decl) : primops.Primitive :=
  match d with
  | Both prim _ | PyOnly prim _ | VmOnly prim _ => prim
  end.

(** The primitives defined under the decorator [register]. *)
Definition registered_both (ds : list decl) : list primops.Primitive :=
  omap (λ d, match d with Both prim _ => Some prim | _ => None end) ds.

(** Whether the last definition of [prim] in [ds] is one under [register];
    [seen] is the answer for the definitions before [ds]. *)
Fixpoint last_is_both (prim : primops.Primitive) (ds : list decl)
    (seen : bool) : bool :=
  match ds with
  | [] => seen
  | d :: ds' =>
      last_is_both prim ds'
        (if decide (decl_prim d = prim)
         then match d with Both _ _ => true | _ => false end
         else seen)
  end.

(** A host callable that is a function of its two arguments: it returns
    [g a b] and does not touch the store. *)
Definition pure_binary (fn : pyfun) (g : Value → Value → Value) : Prop :=
  ∀ a b h, fn [a; b] h = (Ok (g a b), h).

(** A host callable that is a function of its one argument. *)
Definition pure_unary (fn : pyfun) (g : Value → Value) : Prop :=
  ∀ a h, fn [a] h = (Ok (g a), h).

(** [lambda x: x + 1] on integers, the operand being read through a 0-d
    integer array when it is one; on anything else it answers [None]. *)
Definition succ_value (x : Value) : Value :=
  match scalar_of x with
  | Some (NInt n) => VInt (n + 1)
  | _ => VNone
  end.

Definition int_succ : pyfun := λ args,
  match args with
  | [x] => mret (succ_value x)
  | _ => raise TypeError
  end.

(** A VM whose [call] is the direct call of the host and whose [convert]
    gives the value back. *)
Definition direct_vm `{PyHost} : VM :=
  mk_VM (λ f args, call_value recursion_limit f args) (λ v, mret v).

(** [lambda a, b: a + b] on integers, the second operand being read
    through a 0-d integer array when it is one; on anything else it
    answers [None]. *)
Definition sum_value (a b : Value) : Value :=
  match as_int a, scalar_of b with
  | Some m, Some (NInt n) => VInt (m + n)
  | _, _ => VNone
  end.

Definition total_add : pyfun := λ args,
  match args with
  | [a; b] => mret (sum_value a b)
  | _ => raise TypeError
  end.

(** The callable [lambda acc, x: fn(x)], which drops the running value. *)
Definition drop_acc (fn : pyfun) : pyfun := λ args,
  match args with
  | [_; x] => fn [x]
  | _ => raise TypeError
  end.

(** ** Scalar primitives *)

Section Scalars.
Context {host : PyHost}.

Lemma _assert_scalar_ok args :
  Forall is_scalar args → _assert_scalar args = Ok ().
Proof.
  induction 1 as [|x args Hx _ IH]; simpl; [done|].
  destruct x as [| | | | | | | |a| | | |e]; simpl in Hx; try done.
  - by rewrite decide_True.
  - by destruct e.
Qed.

Lemma _assert_scalar_ranked args :
  Exists is_ranked_array args → _assert_scalar args = Raise TypeError.
Proof.
  induction 1 as [x args Hx | x args _ IH]; simpl.
  - destruct x; simpl in Hx; try done. by rewrite decide_False.
  - destruct x as [| | | | | | | |a| | | |e]; try done.
    + case_decide; done.
    + by destruct e.
Qed.

Lemma guarded_raises {A} args (m : M A) h :
  Exists is_ranked_array args →
  (_ ← lift (_assert_scalar args); m) h = (Raise TypeError, h).
Proof.
  intros Hex. unfold mbind, M_bind, lift.
  by rewrite (_assert_scalar_ranked _ Hex).
Qed.

Lemma guarded_passes {A} args (m : M A) h :
  Forall is_scalar args →
  (_ ← lift (_assert_scalar args); m) h = m h.
Proof.
  intros Hall. unfold mbind, M_bind, lift.
  by rewrite (_assert_scalar_ok _ Hall).
Qed.

(** C4, as amended.  On two arguments that are instances of [int] or
    [float], or 0-d arrays, [scalar_add x y] is the host's [x + y], which
    on two integers is their sum; a [complex] argument raises
    [TypeError]; every scalar primitive raises [TypeError] as soon as one
    of its arguments is an array of rank at least 1. *)
Theorem scalar_primitives :
  (∀ x y h, is_scalar x → is_scalar y →
     scalar_add x y h = py_binop Add x y h) ∧
  (∀ a b h, scalar_add (VInt a) (VInt b) h = (Ok (VInt (a + b)), h)) ∧
  (∀ re im y h,
     scalar_add (VComplex re im) y h = (Raise TypeError, h) ∧
     scalar_add y (VComplex re im) h = (Raise TypeError, h)) ∧
  Forall (λ f : Value → Value → M Value,
      ∀ x y h, is_ranked_array x ∨ is_ranked_array y →
        f x y h = (Raise TypeError, h))
    [ scalar_add; scalar_sub; scalar_mul; scalar_div; scalar_mod;
      scalar_pow; scalar_eq; scalar_lt; scalar_gt; scalar_ne;
      scalar_le; scalar_ge ] ∧
  Forall (λ f : Value → M Value,
      ∀ x h, is_ranked_array x → f x h = (Raise TypeError, h))
    [ scalar_uadd; scalar_usub ].
Proof.
  split; [|split; [|split; [|split]]].
  - intros x y h Hx Hy. apply guarded_passes. by repeat constructor.
  - intros a b h. unfold scalar_add. by rewrite guarded_passes by (by repeat constructor).
  - intros re im y h. split; [done|].
    unfold scalar_add, mbind, M_bind, lift. simpl.
    destruct y as [| | | | | | | |a| | | |e]; try done.
    + by case_decide.
    + by destruct e.
  - repeat first [apply List.Forall_nil | apply List.Forall_cons];
      intros x y h Hxy; apply guarded_raises;
      (destruct Hxy;
       [ by apply Exists_cons_hd | by apply Exists_cons_tl, Exists_cons_hd ]).
  - repeat first [apply List.Forall_nil | apply List.Forall_cons];
      intros x h Hx; apply guarded_raises; by apply Exists_cons_hd.
Qed.

End Scalars.

(** The example of the specification: [scalar_add(2, 3) == 5]. *)
Lemma scalar_primitives_witness :
  @scalar_add bare_host (VInt 2) (VInt 3) [] = (Ok (VInt 5), []) ∧
  @scalar_add bare_host
     (VArray (mk_ndarray int64 [2%nat] [NInt 1; NInt 2])) (VInt 3) []
  = (Raise TypeError, []).
Proof.
  destruct (@scalar_primitives bare_host) as (Hadd & _ & _ & Hbin & _).
  split.
  - rewrite Hadd; [reflexivity | exact I | exact I].
  - apply Forall_cons in Hbin as [Hbin _]. apply Hbin. left. discriminate.
Defined.

(** C4 as stated does not hold: the complex number [1 + 2j] is a scalar
    numeric input, and [scalar_add(1 + 2j, 2)] raises [TypeError] where
    [x + y] is [3 + 2j]. *)
Lemma scalar_add_rejects_complex :
  @scalar_add bare_host
    (VComplex (S754_finite false 1 0) (S754_finite false 1 1)) (VInt 2) []
  = (Raise TypeError, []) ∧
  ¬ ∃ v, @scalar_add bare_host
           (VComplex (S754_finite false 1 0) (S754_finite false 1 1))
           (VInt 2) [] = (Ok v, []).
Proof. split; [reflexivity | by intros [v ?]]. Qed.

(** ** Structural type inference *)

Lemma mapM_res_Forall2 {A B} (f : A → res B) xs ys :
  Forall2 (λ x y, f x = Ok y) xs ys → mapM_res f xs = Ok ys.
Proof.
  induction 1 as [|x y xs ys Hxy _ IH]; simpl; [done|].
  by rewrite Hxy, IH.
Qed.

Lemma existsb_differs (T0 : types.Ty) Ts :
  existsb (λ t, bool_decide (t ≠ T0)) Ts = true ↔ ∃ T, T ∈ Ts ∧ T ≠ T0.
Proof.
  rewrite existsb_exists. split; intros (T & Hin & Hne); exists T.
  - split; [by apply list_elem_of_In | by apply bool_decide_eq_true in Hne].
  - split; [by apply list_elem_of_In | by apply bool_decide_eq_true].
Qed.

(** C3, as amended.  For a non-empty list whose elements all have an
    inferred type, [typeof] raises [TypeError] exactly when the type of
    some element after the first differs from the type [T0] of the first,
    and returns [List(T0)] otherwise; the elements are compared with the
    first one only.  When the inference of an element fails, [typeof] of
    the list fails with the error of the first such element. *)
Theorem typeof_nonempty_list depth h l x0 xs :
  h !! l = Some (OList (x0 :: xs)) →
  (∀ T0 Ts,
     typeof depth h x0 = Ok T0 →
     Forall2 (λ x T, typeof depth h x = Ok T) xs Ts →
     (typeof (S depth) h (VRef l) = Raise TypeError ↔
      ∃ T, T ∈ Ts ∧ T ≠ T0) ∧
     ((∀ T, T ∈ Ts → T = T0) →
      typeof (S depth) h (VRef l) = Ok (types.List T0))) ∧
  (∀ e, mapM_res (typeof depth h) (x0 :: xs) = Raise e →
        typeof (S depth) h (VRef l) = Raise e).
Proof.
  intros Hl. split.
  - intros T0 Ts H0 Hrest.
    assert (Hts : mapM_res (typeof depth h) (x0 :: xs) = Ok (T0 :: Ts)).
    { apply mapM_res_Forall2. by constructor. }
    assert (Heq : typeof (S depth) h (VRef l) =
      if existsb (λ t, bool_decide (t ≠ T0)) Ts
      then Raise TypeError else Ok (types.List T0)).
    { cbn [typeof]. rewrite Hl. by rewrite Hts. }
    rewrite Heq. pose proof (existsb_differs T0 Ts) as Hex.
    destruct (existsb _ Ts); split.
    + split; [intros _; by apply Hex | done].
    + intros Hall. destruct Hex as [Hex _].
      destruct (Hex eq_refl) as (T & Hin & Hne). by specialize (Hall T Hin).
    + split; [done | intros Hd; by apply Hex in Hd].
    + done.
  - intros e He. cbn [typeof]. rewrite Hl. by rewrite He.
Qed.

(** The list [[1, 2, True]]: the third element is a [Bool], the first an
    [Int]. *)
Lemma typeof_nonempty_list_witness :
  typeof 1 [OList [VInt 1; VInt 2; VBool true]] (VRef 0) = Raise TypeError.
Proof.
  destruct (typeof_nonempty_list 0 [OList [VInt 1; VInt 2; VBool true]] 0
              (VInt 1) [VInt 2; VBool true] eq_refl) as [Hok _].
  apply (Hok (types.Int 64) [types.Int 64; types.Bool]).
  - reflexivity.
  - repeat constructor.
  - exists types.Bool. split; [|discriminate].
    apply list_elem_of_In. right. by left.
Defined.

(** C3 as stated does not hold: the one-element list [[[1, True]]] has no
    other element, yet [typeof] raises [TypeError], the error of the
    inference of its only element. *)
Lemma typeof_list_nested_failure :
  ¬ (∀ depth h l x0 xs,
       h !! l = Some (OList (x0 :: xs)) →
       (typeof (S depth) h (VRef l) = Raise TypeError ↔
        ∃ x, x ∈ xs ∧ typeof depth h x ≠ typeof depth h x0)).
Proof.
  intros H.
  specialize (H 1%nat [OList [VInt 1; VBool true]; OList [VRef 0]] 1%nat
                (VRef 0) [] eq_refl).
  destruct H as [H _]. destruct (H eq_refl) as (x & Hx & _).
  by apply elem_of_nil in Hx.
Qed.

(** C9. [typeof] of an empty list raises nothing: the list case asks for a
    non-empty list, and the last case answers [External(list)]. *)
Theorem typeof_empty_list depth h l :
  h !! l = Some (OList []) →
  typeof depth h (VRef l) = Ok (types.External c_list).
Proof.
  intros Hl. destruct depth; cbn [typeof class_of]; by rewrite Hl.
Qed.

Lemma typeof_empty_list_witness :
  typeof 0 [OList []] (VRef 0) = Ok (types.External c_list).
Proof. apply (typeof_empty_list 0 [OList []] 0). reflexivity. Defined.

(** ** Tuples: [head] and [tail] *)

Section Tuples.
Context {host : PyHost}.

(** C8, as amended.  On a non-empty tuple [head] returns the first element
    and [tail] a tuple of the others; on the empty tuple [head] raises
    [IndexError] and [tail] returns the empty tuple. *)
Theorem head_tail_tuple :
  (∀ x xs h, head (VTuple (x :: xs)) h = (Ok x, h)) ∧
  (∀ x xs h, tail (VTuple (x :: xs)) h = (Ok (VTuple xs), h)) ∧
  (∀ h, head (VTuple []) h = (Raise IndexError, h)) ∧
  (∀ h, tail (VTuple []) h = (Ok (VTuple []), h)).
Proof.
  repeat split; intros; reflexivity.
Qed.

End Tuples.

(** C8 as stated does not hold: [tail(())] is [()], not an error. *)
Lemma tail_empty_tuple_no_error :
  @tail bare_host (VTuple []) [] = (Ok (VTuple []), []) ∧
  @tail bare_host (VTuple []) [] ≠ (Raise IndexError, []).
Proof. split; [reflexivity | discriminate]. Qed.

(** ** The dual registration *)

Lemma register_agree prim fn r : agree (register prim fn r) prim.
Proof.
  exists fn, (λ _ args, fn args). unfold register; simpl.
  by rewrite !lookup_insert_eq.
Qed.

Lemma run_decl_other d prim r :
  decl_prim d ≠ prim → agree r prim → agree (run_decl r d) prim.
Proof.
  intros Hne (fn & vfn & Hpy & Hvm & Hext). exists fn, vfn.
  destruct d; simpl in *; rewrite ?lookup_insert_ne by done; done.
Qed.

Lemma load_agree prim ds r seen :
  (seen = true → agree r prim) →
  last_is_both prim ds seen = true →
  agree (foldl run_decl r ds) prim.
Proof.
  revert r seen. induction ds as [|d ds IH]; intros r seen Hseen Hlast.
  - by apply Hseen.
  - simpl in *. eapply IH; [|exact Hlast].
    case_decide as Hd.
    + destruct d; [|done..]. intros _. simpl in Hd. subst. apply register_agree.
    + intros Hs. apply run_decl_other; auto.
Qed.

Section Registry.
Context {host : PyHost}.

(** C1. The decorator [register(prim)] files the function it decorates
    in the pure registry under [prim], and in the VM registry a function
    that, for any VM, returns on any arguments what the decorated function
    returns on them.  Once the module is loaded this holds of each of its
    thirty [register]-decorated primitives, [scalar_add] first: the pure
    entry is the function defined in the module, and the VM-coupled entry
    agrees with it for every VM, argument list and store.  These thirty
    are all the primitives the module defines under [register]. *)
Theorem dual_registration_agrees :
  (∀ prim (fn : impl) r,
     py_table (register prim fn r) !! prim = Some fn ∧
     ∃ vfn : vm_impl,
       vm_table (register prim fn r) !! prim = Some vfn ∧
       ∀ vm args h, vfn vm args h = fn args h) ∧
  Forall (λ entry : primops.Primitive * impl,
      py_implementations !! entry.1 = Some entry.2 ∧
      ∃ vfn : vm_impl,
        vm_implementations !! entry.1 = Some vfn ∧
        ∀ vm args h, vfn vm args h = entry.2 args h)
    [
      (primops.scalar_add, arity2 scalar_add);
      (primops.scalar_sub, arity2 scalar_sub);
      (primops.scalar_mul, arity2 scalar_mul);
      (primops.scalar_div, arity2 scalar_div);
      (primops.scalar_mod, arity2 scalar_mod);
      (primops.scalar_pow, arity2 scalar_pow);
      (primops.scalar_uadd, arity1 scalar_uadd);
      (primops.scalar_usub, arity1 scalar_usub);
      (primops.scalar_eq, arity2 scalar_eq);
      (primops.scalar_lt, arity2 scalar_lt);
      (primops.scalar_gt, arity2 scalar_gt);
      (primops.scalar_ne, arity2 scalar_ne);
      (primops.scalar_le, arity2 scalar_le);
      (primops.scalar_ge, arity2 scalar_ge);
      (primops.bool_not, arity1 bool_not);
      (primops.typeof, arity1 (λ x, VType <$> read (λ h, typeof recursion_limit h x)));
      (primops.hastype, arity2 (hastype recursion_limit));
      (primops.cons_tuple, arity2 cons_tuple);
      (primops.head, arity1 head);
      (primops.tail, arity1 tail);
      (primops.setitem, arity3 setitem);
      (primops.setattr, arity3 setattr);
      (primops.shape, arity1 shape);
      (primops.distribute, arity2 distribute);
      (primops.reshape, arity2 reshape);
      (primops.dot, arity2 dot);
      (primops.return_, arity1 return_);
      (primops.iter, arity1 _iter);
      (primops.hasnext, arity1 _hasnext);
      (primops.next, arity1 _next) ] ∧
  registered_both module_decls =
  [ primops.scalar_add; primops.scalar_sub; primops.scalar_mul;
    primops.scalar_div; primops.scalar_mod; primops.scalar_pow;
    primops.scalar_uadd; primops.scalar_usub;
    primops.scalar_eq; primops.scalar_lt; primops.scalar_gt;
    primops.scalar_ne; primops.scalar_le; primops.scalar_ge;
    primops.bool_not; primops.typeof; primops.hastype;
    primops.cons_tuple; primops.head; primops.tail;
    primops.setitem; primops.setattr; primops.shape;
    primops.distribute; primops.reshape; primops.dot; primops.return_;
    primops.iter; primops.hasnext; primops.next ].
Proof.
  split; [|split; [|reflexivity]].
  - intros prim fn r. unfold register. simpl.
    rewrite !lookup_insert_eq. split; [done|]. by eexists.
  - repeat first [apply List.Forall_nil | apply List.Forall_cons];
      (split; [reflexivity | eexists; split; [reflexivity | done]]).
Qed.

(** The primitives concerned, by name. *)
Lemma registered_both_names :
  registered_both module_decls =
  [ primops.scalar_add; primops.scalar_sub; primops.scalar_mul;
    primops.scalar_div; primops.scalar_mod; primops.scalar_pow;
    primops.scalar_uadd; primops.scalar_usub;
    primops.scalar_eq; primops.scalar_lt; primops.scalar_gt;
    primops.scalar_ne; primops.scalar_le; primops.scalar_ge;
    primops.bool_not; primops.typeof; primops.hastype;
    primops.cons_tuple; primops.head; primops.tail;
    primops.setitem; primops.setattr; primops.shape;
    primops.distribute; primops.reshape; primops.dot; primops.return_;
    primops.iter; primops.hasnext; primops.next ].
Proof. reflexivity. Qed.

(** [array_scan] only ever calls [fn] on two arguments. *)
Lemma scan_loop_ext fn1 fn2 dt init xs h :
  (∀ a b h, fn1 [a; b] h = fn2 [a; b] h) →
  scan_loop fn1 dt init xs h = scan_loop fn2 dt init xs h.
Proof.
  intros Hfn. revert init h. induction xs as [|x xs IH]; intros init h; [done|].
  cbn [scan_loop]. unfold mbind at 1 4, M_bind at 1 4. rewrite Hfn.
  destruct (fn2 [init; item0 dt x] h) as [[v|e] h1]; [|done].
  unfold mbind at 1 3, M_bind at 1 3.
  destruct (lift (np_cast dt v) h1) as [[y|e] h2]; [|done].
  unfold mbind, M_bind. by rewrite IH.
Qed.

Lemma mapM_st_ext {A B} (f1 f2 : A → M B) xs h :
  (∀ x h, f1 x h = f2 x h) → mapM_st f1 xs h = mapM_st f2 xs h.
Proof.
  intros Hf. revert h. induction xs as [|x xs IH]; intros h; [done|].
  cbn [mapM_st]. unfold mbind at 1 3, M_bind at 1 3. rewrite Hf.
  destruct (f2 x h) as [[y|e] h1]; [|done].
  unfold mbind, M_bind. by rewrite IH.
Qed.

Lemma array_scan_ext fn1 fn2 init array axis h :
  (∀ a b h, fn1 [a; b] h = fn2 [a; b] h) →
  array_scan fn1 init array axis h = array_scan fn2 init array axis h.
Proof.
  intros Hfn. unfold array_scan, mbind, M_bind.
  destruct (asanyarray array h) as [[a|e] h1]; [|done].
  unfold fmap, M_fmap, apply_along_axis, mbind, M_bind.
  destruct (lift _ h1) as [[k|e] h2]; [|done].
  case_decide; [done|].
  rewrite (mapM_st_ext _
    (λ ary, nditer ary (scan_loop fn2 (nd_dtype a) init ary))); [done|].
  intros ary h0. destruct ary; [done|]. by apply scan_loop_ext.
Qed.

(** The VM-coupled [array_scan] is the pure one run on a closure that
    calls back into the VM: the loop is shared, and the two return the
    same whenever calling [fn] through the VM is calling it directly. *)
Lemma _array_scan_vm_shares vm fn init array axis h :
  (∀ a b h, call vm fn [a; b] h = call_value recursion_limit fn [a; b] h) →
  _array_scan_vm vm fn init array axis h =
  array_scan (call_value recursion_limit fn) init array axis h.
Proof. intros Hcall. by apply array_scan_ext. Qed.

End Registry.

(** [scalar_add(2, 3)] is [5] through the pure entry and through the
    VM-coupled entry, whose agreement is the theorem's. *)
Lemma dual_registration_agrees_witness :
  ∃ (fn : impl) (vfn : vm_impl),
    @py_implementations bare_host !! primops.scalar_add = Some fn ∧
    @vm_implementations bare_host !! primops.scalar_add = Some vfn ∧
    fn [VInt 2; VInt 3] [] = (Ok (VInt 5), []) ∧
    vfn (@direct_vm bare_host) [VInt 2; VInt 3] [] = (Ok (VInt 5), []).
Proof.
  destruct (@dual_registration_agrees bare_host) as (_ & Hall & _).
  apply Forall_cons in Hall as [(Hpy & vfn & Hvm & Hagree) _].
  exists (arity2 (@scalar_add bare_host)), vfn.
  split; [exact Hpy|]. split; [exact Hvm|]. split; [reflexivity|].
  rewrite Hagree. reflexivity.
Defined.

(** The example of the specification: [scalar_add(2, 3)] through either
    registry is [5]. *)
Lemma scalar_add_both_registries (vm : VM) :
  (fn ← @py_implementations bare_host !! primops.scalar_add;
   Some (fn [VInt 2; VInt 3] [])) = Some (Ok (VInt 5), []) ∧
  (vfn ← @vm_implementations bare_host !! primops.scalar_add;
   Some (vfn vm [VInt 2; VInt 3] [])) = Some (Ok (VInt 5), []).
Proof. split; reflexivity. Qed.

(** ** Copy on write: [setitem] and [setattr] *)

Section CopyOnWrite.
Context {host : PyHost}.

Lemma seq_index_nonneg {A} (xs : list A) (k : Z) x :
  (0 ≤ k)%Z → xs !! Z.to_nat k = Some x → seq_index xs k = Ok x.
Proof.
  intros Hk Hx. unfold seq_index.
  apply lookup_lt_Some in Hx as Hlt.
  replace (k <? 0)%Z with false by (symmetry; apply Z.ltb_ge; lia).
  replace (0 <=? k)%Z with true by (symmetry; apply Z.leb_le; lia).
  replace (k <? Z.of_nat (length xs))%Z with true
    by (symmetry; apply Z.ltb_lt; lia).
  simpl. by rewrite Hx.
Qed.

Lemma seq_index_beyond {A} (xs : list A) (k : Z) :
  (Z.of_nat (length xs) ≤ k)%Z → seq_index xs k = Raise IndexError.
Proof.
  intros Hk. unfold seq_index.
  replace (k <? 0)%Z with false by (symmetry; apply Z.ltb_ge; lia).
  replace (k <? Z.of_nat (length xs))%Z with false
    by (symmetry; apply Z.ltb_ge; lia).
  by rewrite andb_false_r.
Qed.

Lemma seq_slot_nonneg {A} (xs : list A) (k : Z) :
  (0 ≤ k < Z.of_nat (length xs))%Z → seq_slot xs k = Ok (Z.to_nat k).
Proof.
  intros Hk. unfold seq_slot.
  replace (k <? 0)%Z with false by (symmetry; apply Z.ltb_ge; lia).
  replace (0 <=? k)%Z with true by (symmetry; apply Z.leb_le; lia).
  replace (k <? Z.of_nat (length xs))%Z with true
    by (symmetry; apply Z.ltb_lt; lia).
  done.
Qed.

Lemma seq_slot_outside {A} (xs : list A) (k : Z) :
  (k < - Z.of_nat (length xs) ∨ Z.of_nat (length xs) ≤ k)%Z →
  seq_slot xs k = Raise IndexError.
Proof.
  intros Hk. unfold seq_slot.
  destruct (k <? 0)%Z eqn:Hneg.
  - apply Z.ltb_lt in Hneg.
    replace (0 <=? k + Z.of_nat (length xs))%Z with false; [done|].
    symmetry. apply Z.leb_gt. lia.
  - apply Z.ltb_ge in Hneg.
    replace (k <? Z.of_nat (length xs))%Z with false
      by (symmetry; apply Z.ltb_ge; lia).
    by rewrite andb_false_r.
Qed.

(** What the generator of the tuple branch builds for an integer index:
    the element at the position equal to the index is replaced, and no
    element is when no position is equal to it. *)
Lemma replace_where_int (k : Z) v (i : Z) xs :
  replace_where (VInt k) v i xs =
  Ok (if decide (i ≤ k < i + Z.of_nat (length xs))%Z
      then <[Z.to_nat (k - i) := v]> xs else xs).
Proof.
  revert i. induction xs as [|x xs IH]; intros i.
  - simpl. by case_decide.
  - cbn [replace_where py_int_eq]. rewrite IH. cbn [mbind res_bind].
    f_equal. destruct (i =? k)%Z eqn:Hik.
    + apply Z.eqb_eq in Hik. subst k.
      rewrite decide_False by lia.
      rewrite decide_True by (rewrite length_cons; lia).
      by rewrite Z.sub_diag.
    + apply Z.eqb_neq in Hik.
      destruct (decide (i + 1 ≤ k < i + 1 + Z.of_nat (length xs))%Z).
      * rewrite decide_True by (rewrite length_cons; lia).
        replace (Z.to_nat (k - i)) with (S (Z.to_nat (k - (i + 1)))) by lia.
        done.
      * rewrite decide_False by (rewrite length_cons; lia). done.
Qed.

Ltac store_grows :=
  first [ reflexivity | by apply prefix_app_r ].

Lemma setitem_extends d i v h : h `prefix_of` (setitem d i v h).2.
Proof.
  destruct d; simpl;
    try (unfold mbind, M_bind, lift, raise; simpl;
         repeat case_match; simplify_eq/=; store_grows).
  unfold mbind, M_bind. simpl.
  destruct (_ !! l) as [o|] eqn:Hl; simpl; [|store_grows].
  destruct o; simpl; rewrite ?Hl; simpl; try store_grows;
    rewrite lookup_app_r, Nat.sub_diag by done; simpl; [|store_grows].
  destruct (as_index i); simpl; [|store_grows].
  destruct (seq_slot items z); simpl; [|store_grows].
  rewrite insert_app_r_alt, Nat.sub_diag by done. store_grows.
Qed.

Lemma setattr_extends d a v h :
  copy_protects h d → h `prefix_of` (setattr d a v h).2.
Proof.
  unfold setattr, mbind, M_bind.
  destruct d; simpl; try done; intros Hd;
    try (unfold py_setattr, lift, raise; simpl;
         repeat case_match; simplify_eq/=; store_grows).
  destruct (_ !! l) as [o|] eqn:Hl; simpl; [|store_grows].
  destruct o; simpl; try done;
    (unfold py_setattr; destruct a; simpl; try store_grows;
     rewrite lookup_app_r, Nat.sub_diag by done; simpl; try store_grows;
     rewrite insert_app_r_alt, Nat.sub_diag by done; store_grows).
Qed.

Lemma prefix_lookup_Some' (h h' : heap) l o :
  h `prefix_of` h' → h !! l = Some o → h' !! l = Some o.
Proof. intros [ext ->] Hl. by apply lookup_app_l_Some. Qed.

Lemma prefix_sequence_of h h' d xs :
  h `prefix_of` h' → sequence_of h d = Some xs → sequence_of h' d = Some xs.
Proof.
  intros Hpre. destruct d; simpl; try done.
  destruct (_ !! l) as [o|] eqn:Hl; [|done].
  by rewrite (prefix_lookup_Some' _ _ _ _ Hpre Hl).
Qed.

(** What the two primitives do to the store.  [setitem] writes to no
    object that existed before the call, and neither does [setattr] on an
    argument that [copy] duplicates or that is immutable: the store
    afterwards is the store before, followed by what the call allocated,
    so the argument reads as before.  For a tuple or list [d] and an
    index [k] with [0 <= k < len(d)] the result [r] of [setitem] has
    [r[k]] equal to the value given.  On an instance [setattr] returns a
    new object of the same class whose attributes are those of the
    original, with the named one set.  On a function object [copy]
    returns the object itself, and the write of [setattr] lands in it. *)
Lemma setitem_setattr_copy d i v h :
  (h `prefix_of` (setitem d i v h).2 ∧
   ∀ xs, sequence_of h d = Some xs →
         sequence_of (setitem d i v h).2 d = Some xs) ∧
  (∀ xs k, sequence_of h d = Some xs → i = VInt k →
     (0 ≤ k < Z.of_nat (length xs))%Z →
     ∃ r, (setitem d i v h).1 = Ok r ∧
          (py_getitem r i (setitem d i v h).2).1 = Ok v) ∧
  (copy_protects h d → h `prefix_of` (setattr d i v h).2) ∧
  (∀ l c attrs name,
     d = VRef l → h !! l = Some (OInstance c attrs) → i = VStr name →
     setattr d i v h =
       (Ok (VRef (length h)), h ++ [OInstance c (<[name := v]> attrs)]) ∧
     (setattr d i v h).2 !! l = Some (OInstance c attrs)) ∧
  (∀ l code attrs name,
     d = VRef l → h !! l = Some (OFunction code attrs) → i = VStr name →
     setattr d i v h =
       (Ok (VRef l), <[l := OFunction code (<[name := v]> attrs)]> h)).
Proof.
  split; [|split; [|split; [|split]]].
  - split; [apply setitem_extends|].
    intros xs. apply prefix_sequence_of, setitem_extends.
  - intros xs k Hseq -> Hk. destruct d; simpl in Hseq; try done.
    + simplify_eq. simpl. unfold lift. rewrite replace_where_int.
      rewrite decide_True by lia. simpl. eexists; split; [done|].
      simpl. unfold lift; simpl. apply seq_index_nonneg; [lia|].
      rewrite Z.sub_0_r. apply list_lookup_insert_eq. lia.
    + destruct (_ !! l) as [[items| |]|] eqn:Hl; try done. simplify_eq.
      simpl. unfold mbind, M_bind. simpl. rewrite Hl. simpl.
      rewrite lookup_app_r, Nat.sub_diag by done. simpl.
      rewrite seq_slot_nonneg by done. simpl.
      eexists; split; [done|].
      rewrite insert_app_r_alt, Nat.sub_diag by done. simpl.
      rewrite lookup_app_r, Nat.sub_diag by done. simpl.
      apply seq_index_nonneg; [lia|]. apply list_lookup_insert_eq. lia.
  - apply setattr_extends.
  - intros l c attrs name -> Hl ->.
    assert (Heq : setattr (VRef l) (VStr name) v h =
      (Ok (VRef (length h)), h ++ [OInstance c (<[name := v]> attrs)])).
    { unfold setattr, mbind, M_bind. simpl. rewrite Hl. simpl.
      rewrite lookup_app_r, Nat.sub_diag by done. simpl.
      by rewrite insert_app_r_alt, Nat.sub_diag by done. }
    split; [done|]. rewrite Heq. simpl. by apply lookup_app_l_Some.
  - intros l code attrs name -> Hl ->.
    unfold setattr, mbind, M_bind. simpl. by rewrite Hl, Hl.
Qed.

(** The sibling branch: on a list an index outside [-len, len) raises
    [IndexError]. *)
Lemma setitem_list_out_of_range l xs (k : Z) v h :
  h !! l = Some (OList xs) →
  (k < - Z.of_nat (length xs) ∨ Z.of_nat (length xs) ≤ k)%Z →
  (setitem (VRef l) (VInt k) v h).1 = Raise IndexError.
Proof.
  intros Hl Hk. simpl. unfold mbind, M_bind. simpl. rewrite Hl. simpl.
  rewrite lookup_app_r, Nat.sub_diag by done. simpl.
  by rewrite seq_slot_outside.
Qed.

(** The tuple branch: an index equal to no position raises nothing and
    gives back the elements of the tuple. *)
Lemma setitem_tuple_out_of_range xs (k : Z) v h :
  (k < 0 ∨ Z.of_nat (length xs) ≤ k)%Z →
  setitem (VTuple xs) (VInt k) v h = (Ok (VTuple xs), h).
Proof.
  intros Hk. simpl. unfold lift. rewrite replace_where_int.
  by rewrite decide_False by lia.
Qed.

End CopyOnWrite.

Lemma setitem_setattr_copy_witness :
  ∃ r, (@setitem bare_host (VRef 0) (VInt 1) (VInt 9)
          [OList [VInt 1; VInt 2; VInt 3]]).1 = Ok r ∧
       (@py_getitem bare_host r (VInt 1)
          (@setitem bare_host (VRef 0) (VInt 1) (VInt 9)
             [OList [VInt 1; VInt 2; VInt 3]]).2).1 = Ok (VInt 9).
Proof.
  destruct (@setitem_setattr_copy bare_host (VRef 0) (VInt 1) (VInt 9)
              [OList [VInt 1; VInt 2; VInt 3]]) as (_ & Hset & _).
  apply (Hset [VInt 1; VInt 2; VInt 3] 1%Z); [reflexivity..|simpl; lia].
Defined.

(** C5 at [setattr(f, 'tag', 1)] for a function [f] without attributes:
    the call returns [f] itself, and [f] now has the attribute [tag]: the
    argument was written to. *)
Theorem setattr_function_mutates :
  @setattr bare_host (VRef 0) (VStr "tag") (VInt 1) [OFunction (Def 0) ∅]
  = (Ok (VRef 0), [OFunction (Def 0) (<["tag" := VInt 1]> ∅)]).
Proof. reflexivity. Qed.

(** The same call on a class instance: the result is a new object, and
    the argument is as it was. *)
Lemma setattr_instance_copied :
  @setattr bare_host (VRef 0) (VStr "tag") (VInt 1) [OInstance 0 ∅]
  = (Ok (VRef 1), [OInstance 0 ∅; OInstance 0 (<["tag" := VInt 1]> ∅)]).
Proof. reflexivity. Qed.

(** So [setattr] does not always leave the objects of the store as they
    were. *)
Lemma setattr_function_in_place :
  ¬ (∀ (host : PyHost) d a v h l o,
       h !! l = Some o → (setattr d a v h).2 !! l = Some o).
Proof.
  intros H.
  specialize (H bare_host (VRef 0) (VStr "tag") (VInt 1)
                [OFunction (Def 0) ∅] 0%nat (OFunction (Def 0) ∅) eq_refl).
  apply (f_equal (λ o, match o with
                       | Some (OFunction _ attrs) => attrs !! "tag"
                       | _ => None
                       end)) in H.
  simpl in H. by rewrite lookup_insert_eq in H.
Qed.

(** C7 at [setitem((1, 2, 3), 5, 9)]: no error, the tuple comes back. *)
Lemma setitem_tuple_index_5 :
  @setitem bare_host (VTuple [VInt 1; VInt 2; VInt 3]) (VInt 5) (VInt 9) []
  = (Ok (VTuple [VInt 1; VInt 2; VInt 3]), []).
Proof. reflexivity. Qed.

(** The same call on the list [[1, 2, 3]] raises [IndexError]. *)
Lemma setitem_list_index_5 :
  (@setitem bare_host (VRef 0) (VInt 5) (VInt 9)
     [OList [VInt 1; VInt 2; VInt 3]]).1 = Raise IndexError.
Proof. reflexivity. Qed.

(** ** The iterator protocol *)

Section Iterators.
Context {host : PyHost}.

Lemma py_getitem_sequence h src xs (k : Z) :
  sequence_of h src = Some xs →
  py_getitem src (VInt k) h = (seq_index xs k, h).
Proof.
  intros Hseq. destruct src; simpl in Hseq; try done.
  - by simplify_eq.
  - simpl. destruct (_ !! l) as [[items| |]|]; by simplify_eq.
Qed.

Lemma py_len_sequence h src xs :
  sequence_of h src = Some xs → py_len h src = Ok (Z.of_nat (length xs)).
Proof.
  intros Hseq. destruct src; simpl in Hseq; try done.
  - by simplify_eq.
  - simpl. destruct (_ !! l) as [[items| |]|]; by simplify_eq.
Qed.

(** One call of [next] on the iterator [(k, src)]. *)
Lemma _next_sequence h src xs (k : Z) :
  sequence_of h src = Some xs →
  _next (VTuple [VInt k; src]) h =
  ((λ x, VTuple [x; VTuple [VInt (k + 1); src]]) <$> seq_index xs k, h).
Proof.
  intros Hseq. unfold _next, mbind, M_bind. simpl.
  rewrite (py_getitem_sequence _ _ _ _ Hseq).
  by destruct (seq_index xs k).
Qed.

Lemma _hasnext_sequence h src xs (k : Z) :
  sequence_of h src = Some xs →
  _hasnext (VTuple [VInt k; src]) h =
  (Ok (VBool (k <? Z.of_nat (length xs))%Z), h).
Proof.
  intros Hseq. unfold _hasnext, mbind, M_bind, read. simpl.
  by rewrite (py_len_sequence _ _ _ Hseq).
Qed.

Lemma nexts_sequence h src xs (k c : nat) :
  sequence_of h src = Some xs →
  c + k ≤ length xs →
  nexts k (VTuple [VInt (Z.of_nat c); src]) h =
  (Ok (take k (drop c xs), VTuple [VInt (Z.of_nat (c + k)); src]), h).
Proof.
  intros Hseq. revert c. induction k as [|k IH]; intros c Hck.
  - simpl. by rewrite Nat.add_0_r, take_0.
  - destruct (lookup_lt_is_Some_2 xs c) as [x Hx]; [lia|].
    cbn [nexts]. unfold mbind at 1, M_bind at 1.
    rewrite (_next_sequence _ _ _ _ Hseq).
    rewrite (seq_index_nonneg xs _ x) by (rewrite ?Nat2Z.id; done || lia).
    simpl. unfold mbind, M_bind.
    replace (Z.of_nat c + 1)%Z with (Z.of_nat (S c)) by lia.
    rewrite IH by lia. simpl.
    rewrite (drop_S _ _ _ Hx).
    by replace (c + S k) with (S (c + k)) by lia.
Qed.

Lemma nexts_exhausts h src xs (k c : nat) :
  sequence_of h src = Some xs →
  c + k = S (length xs) → c ≤ length xs →
  nexts k (VTuple [VInt (Z.of_nat c); src]) h = (Raise IndexError, h).
Proof.
  intros Hseq. revert c. induction k as [|k IH]; intros c Hck Hc; [lia|].
  cbn [nexts]. unfold mbind at 1, M_bind at 1.
  rewrite (_next_sequence _ _ _ _ Hseq).
  destruct (decide (c = length xs)) as [->|Hne].
  - by rewrite seq_index_beyond by lia.
  - destruct (lookup_lt_is_Some_2 xs c) as [x Hx]; [lia|].
    rewrite (seq_index_nonneg xs _ x) by (rewrite ?Nat2Z.id; done || lia).
    simpl. unfold mbind, M_bind.
    replace (Z.of_nat c + 1)%Z with (Z.of_nat (S c)) by lia.
    by rewrite IH by lia.
Qed.

(** C6. Over a tuple or list of length [n]: [iter] starts at cursor 0;
    any [k <= n] successive calls of [next] succeed, yield the first [k]
    elements and leave the cursor at [k]; one call more raises
    [IndexError]; and [hasnext] is false at cursor [n] and true at every
    cursor before it. *)
Theorem iterator_protocol h src xs :
  sequence_of h src = Some xs →
  _iter src h = (Ok (VTuple [VInt 0; src]), h) ∧
  (∀ k, k ≤ length xs →
     nexts k (VTuple [VInt 0; src]) h =
     (Ok (take k xs, VTuple [VInt (Z.of_nat k); src]), h)) ∧
  _next (VTuple [VInt (Z.of_nat (length xs)); src]) h
    = (Raise IndexError, h) ∧
  nexts (S (length xs)) (VTuple [VInt 0; src]) h = (Raise IndexError, h) ∧
  (∀ k, k ≤ length xs →
     _hasnext (VTuple [VInt (Z.of_nat k); src]) h =
     (Ok (VBool (negb (k =? length xs))), h)).
Proof.
  intros Hseq.
  assert (Hend : _next (VTuple [VInt (Z.of_nat (length xs)); src]) h
                 = (Raise IndexError, h)).
  { rewrite (_next_sequence _ _ _ _ Hseq).
    by rewrite seq_index_beyond by lia. }
  assert (Hrun : ∀ k, k ≤ length xs →
     nexts k (VTuple [VInt 0; src]) h =
     (Ok (take k xs, VTuple [VInt (Z.of_nat k); src]), h)).
  { intros k Hk. exact (nexts_sequence h src xs k 0 Hseq Hk). }
  split; [done|]. split; [done|]. split; [done|]. split.
  - apply (nexts_exhausts h src xs (S (length xs)) 0 Hseq); lia.
  - intros k Hk. rewrite (_hasnext_sequence _ _ _ _ Hseq). do 3 f_equal.
    destruct (k =? length xs) eqn:Hkn; simpl.
    + apply Nat.eqb_eq in Hkn. apply Z.ltb_ge. lia.
    + apply Nat.eqb_neq in Hkn. apply Z.ltb_lt. lia.
Qed.

(** C10. [next] writes nothing: on an iterator [(k, src)] over a tuple or
    list the store is the same after the call, the result within range is
    the pair of the element at [k] and the new iterator [(k + 1, src)],
    and a second call on the same iterator returns what the first
    returned. *)
Theorem next_is_persistent h src xs (k : Z) :
  sequence_of h src = Some xs →
  (_next (VTuple [VInt k; src]) h).2 = h ∧
  (∀ x, (0 ≤ k)%Z → xs !! Z.to_nat k = Some x →
     _next (VTuple [VInt k; src]) h =
     (Ok (VTuple [x; VTuple [VInt (k + 1); src]]), h)) ∧
  (r1 ← _next (VTuple [VInt k; src]);
   r2 ← _next (VTuple [VInt k; src]);
   mret (r1, r2)) h
  = ((λ r, (r, r)) <$> _next (VTuple [VInt k; src])) h.
Proof.
  intros Hseq. rewrite !(_next_sequence _ _ _ _ Hseq).
  split; [done|]. split.
  - intros x Hk Hx. by rewrite (seq_index_nonneg _ _ _ Hk Hx).
  - unfold mbind, M_bind, fmap, M_fmap.
    rewrite !(_next_sequence _ _ _ _ Hseq).
    by destruct (seq_index xs k).
Qed.

End Iterators.

Lemma iterator_protocol_witness :
  @nexts bare_host 3 (VTuple [VInt 0; VTuple [VInt 7; VInt 8; VInt 9]]) []
  = (Ok ([VInt 7; VInt 8; VInt 9],
         VTuple [VInt 3; VTuple [VInt 7; VInt 8; VInt 9]]), []) ∧
  @nexts bare_host 4 (VTuple [VInt 0; VTuple [VInt 7; VInt 8; VInt 9]]) []
  = (Raise IndexError, []).
Proof.
  destruct (@iterator_protocol bare_host []
              (VTuple [VInt 7; VInt 8; VInt 9]) [VInt 7; VInt 8; VInt 9]
              eq_refl) as (_ & Hrun & _ & Hend & _).
  split; [apply (Hrun 3); simpl; lia | exact Hend].
Defined.

Lemma next_is_persistent_witness :
  @_next bare_host (VTuple [VInt 1; VRef 0]) [OList [VInt 7; VInt 8]]
  = (Ok (VTuple [VInt 8; VTuple [VInt 2; VRef 0]]),
     [OList [VInt 7; VInt 8]]).
Proof.
  destruct (@next_is_persistent bare_host [OList [VInt 7; VInt 8]]
              (VRef 0) [VInt 7; VInt 8] 1%Z eq_refl) as (_ & Hstep & _).
  apply (Hstep (VInt 8)); [lia | reflexivity].
Defined.

(** ** The scan along an axis *)

(** The specification's recurrence, position by position. *)
Lemma inclusive_scan_first {A B} (g : B → A → B) init x xs :
  inclusive_scan g init (x :: xs) !! 0 = Some (g init x).
Proof. reflexivity. Qed.

Lemma inclusive_scan_next {A B} (g : B → A → B) init xs i y x :
  inclusive_scan g init xs !! i = Some y →
  xs !! S i = Some x →
  inclusive_scan g init xs !! S i = Some (g y x).
Proof.
  revert init i. induction xs as [|x0 xs IH]; intros init i Hy Hx; [done|].
  destruct i as [|i]; simpl in *.
  - destruct xs; simplify_eq/=. done.
  - by apply IH.
Qed.

Lemma inclusive_scan_length {A B} (g : B → A → B) init xs :
  length (inclusive_scan g init xs) = length xs.
Proof. revert init. induction xs; intros; simpl; auto. Qed.

Lemma mapM_res_length {A B} (f : A → res B) xs ys :
  mapM_res f xs = Ok ys → length ys = length xs.
Proof.
  revert ys. induction xs as [|x xs IH]; intros ys; simpl.
  - by intros [= <-].
  - destruct (f x); simpl; [|done].
    destruct (mapM_res f xs) eqn:E; simpl; [|done].
    intros [= <-]. simpl. f_equal. by apply IH.
Qed.

Lemma mapM_res_lookup {A B} (f : A → res B) xs ys n x :
  mapM_res f xs = Ok ys → xs !! n = Some x →
  ∃ y, ys !! n = Some y ∧ f x = Ok y.
Proof.
  revert ys n. induction xs as [|x0 xs IH]; intros ys n; simpl; [done|].
  destruct (f x0) as [y0|] eqn:E0; simpl; [|done].
  destruct (mapM_res f xs) as [ys'|] eqn:E; simpl; [|done].
  intros [= <-]. destruct n as [|n]; simpl.
  - intros [= <-]. eauto.
  - by apply IH.
Qed.

Lemma mapM_res_total {A B} (f : A → res B) xs :
  Forall (λ x, ∃ y, f x = Ok y) xs → ∃ ys, mapM_res f xs = Ok ys.
Proof.
  induction 1 as [|x xs [y Hy] _ [ys IH]]; simpl; [by eexists|].
  rewrite Hy, IH. by eexists.
Qed.

Lemma mapM_st_pure {A B} (f : A → M B) (f' : A → res B) xs h :
  (∀ x h, f x h = (f' x, h)) → mapM_st f xs h = (mapM_res f' xs, h).
Proof.
  intros Hf. induction xs as [|x xs IH]; simpl; [done|].
  unfold mbind at 1, M_bind at 1. rewrite Hf.
  destruct (f' x); simpl; [|done].
  unfold mbind, M_bind. rewrite IH. by destruct (mapM_res f' xs).
Qed.

(** Row-major indexing: position [(o, j, i)] of an array of shape
    [outer × len × inner]. *)
Lemma position_bound outer len inner o j i :
  o < outer → j < len → i < inner →
  (o * len + j) * inner + i < outer * len * inner.
Proof.
  intros Ho Hj Hi.
  assert (H1 : o * len + j + 1 ≤ outer * len) by nia.
  assert (H2 : (o * len + j + 1) * inner ≤ outer * len * inner)
    by (by apply Nat.mul_le_mono_r).
  lia.
Qed.

Lemma position_decode len inner o j i :
  j < len → i < inner →
  ((o * len + j) * inner + i) / (len * inner) = o ∧
  (((o * len + j) * inner + i) / inner) `mod` len = j ∧
  ((o * len + j) * inner + i) `mod` inner = i.
Proof.
  intros Hj Hi.
  assert (Hq : ((o * len + j) * inner + i) / inner = o * len + j).
  { symmetry. apply (Nat.div_unique _ _ _ i); nia. }
  assert (Hr : ((o * len + j) * inner + i) `mod` inner = i).
  { symmetry. apply (Nat.mod_unique _ _ (o * len + j)); nia. }
  split; [|split; [|done]].
  - symmetry. apply (Nat.div_unique _ _ _ (j * inner + i)); nia.
  - rewrite Hq. symmetry. apply (Nat.mod_unique _ _ o); nia.
Qed.

Lemma slices_from_lookup len inner d n s o i :
  o < n → i < inner →
  flat_map (λ o0, slice_at len inner d o0 <$> seq 0 inner) (seq s n)
    !! (o * inner + i) = Some (slice_at len inner d (s + o) i).
Proof.
  revert s o. induction n as [|n IH]; intros s o Ho Hi; [lia|].
  cbn [seq flat_map]. destruct o as [|o].
  - rewrite lookup_app_l by (rewrite length_fmap, length_seq; lia).
    rewrite list_lookup_fmap. simpl. rewrite lookup_seq_lt by lia.
    simpl. by rewrite Nat.add_0_r.
  - rewrite lookup_app_r by (rewrite length_fmap, length_seq; lia).
    rewrite length_fmap, length_seq.
    replace (S o * inner + i - inner) with (o * inner + i) by lia.
    rewrite IH by lia. do 2 f_equal. lia.
Qed.

Lemma slices_lookup outer len inner d o i :
  o < outer → i < inner →
  slices outer len inner d !! (o * inner + i) = Some (slice_at len inner d o i).
Proof. intros Ho Hi. exact (slices_from_lookup len inner d outer 0 o i Ho Hi). Qed.

Lemma slices_length outer len inner d :
  length (slices outer len inner d) = outer * inner.
Proof.
  unfold slices.
  assert (H : ∀ n s,
    length (flat_map (λ o, slice_at len inner d o <$> seq 0 inner) (seq s n))
    = n * inner); [|apply H].
  induction n as [|n IH]; intros s; [done|].
  cbn [seq flat_map]. rewrite length_app, length_fmap, length_seq, IH. lia.
Qed.

Lemma slice_at_length len inner d o i :
  length (slice_at len inner d o i) = len.
Proof. unfold slice_at. by rewrite length_fmap, length_seq. Qed.

(** Reading the results back along the axis gives the result of each
    slice. *)
Lemma slice_at_gather outer len inner rs o i r :
  o < outer → i < inner →
  rs !! (o * inner + i) = Some r → length r = len →
  slice_at len inner (gather outer len inner rs) o i = r.
Proof.
  intros Ho Hi Hr Hlen. unfold slice_at.
  apply list_eq. intros j. rewrite list_lookup_fmap.
  destruct (decide (j < len)) as [Hj|Hj].
  - rewrite lookup_seq_lt by done. simpl.
    pose proof (position_bound outer len inner o j i Ho Hj Hi) as Hb.
    assert (Hg : gather outer len inner rs !! ((o * len + j) * inner + i)
                 = Some (r !!! j)).
    { unfold gather. rewrite list_lookup_fmap, lookup_seq_lt by done. simpl.
      destruct (position_decode len inner o j i Hj Hi) as (-> & -> & ->).
      by rewrite (list_lookup_total_correct _ _ _ Hr). }
    rewrite (list_lookup_total_correct _ _ _ Hg).
    symmetry. apply list_lookup_lookup_total_lt. lia.
  - rewrite lookup_seq_ge by lia. simpl.
    symmetry. apply lookup_ge_None. lia.
Qed.

Lemma slices_elem outer len inner d s :
  s ∈ slices outer len inner d →
  ∃ o i, o < outer ∧ i < inner ∧ s = slice_at len inner d o i.
Proof.
  unfold slices. rewrite list_elem_of_In, in_flat_map.
  intros (o & Ho & Hs). apply list_elem_of_In, list_elem_of_fmap in Hs.
  destruct Hs as (i & -> & Hi).
  apply list_elem_of_In, elem_of_seq in Ho. apply elem_of_seq in Hi.
  exists o, i. repeat split; lia.
Qed.

Section Scan.
Context {host : PyHost}.

Lemma scan_loop_pure fn g dt init xs h :
  pure_binary fn g →
  scan_loop fn dt init xs h =
  (mapM_res (np_cast dt) (inclusive_scan g init (item0 dt <$> xs)), h).
Proof.
  intros Hfn. revert init. induction xs as [|x xs IH]; intros init; [done|].
  cbn [scan_loop inclusive_scan fmap list_fmap mapM_res].
  unfold mbind at 1, M_bind at 1. rewrite Hfn.
  unfold mbind at 1, M_bind at 1, lift.
  destruct (np_cast dt (g init (item0 dt x))) as [y|e]; simpl; [|done].
  unfold mbind, M_bind. rewrite IH.
  by destruct (mapM_res _ _).
Qed.

Lemma stored_exactly_values dt accs ys :
  mapM_res (np_cast dt) accs = Ok ys →
  Forall (stored_exactly dt) accs →
  value_of <$> ys = accs.
Proof.
  revert ys. induction accs as [|v accs IH]; intros ys; simpl.
  - by intros [= <-].
  - intros Hm Hall. apply Forall_cons in Hall as [(e & He & Hv) Hall].
    rewrite He in Hm. simpl in Hm.
    destruct (mapM_res (np_cast dt) accs) as [ys'|] eqn:E; [|done].
    simpl in Hm. injection Hm as <-. simpl. rewrite Hv. f_equal. by apply IH.
Qed.

Lemma running_fold_length fn prev xs h accs h' :
  running_fold fn prev xs h = (Ok accs, h') → length accs = length xs.
Proof.
  revert prev h accs. induction xs as [|x xs IH]; intros prev h accs.
  - by intros [= <- _].
  - cbn [running_fold]. unfold mbind at 1, M_bind at 1.
    destruct (fn [prev; x] h) as [[acc|e] h1]; [|done].
    unfold mbind, M_bind.
    destruct (running_fold fn acc xs h1) as [[accs'|e] h2] eqn:Hrun; [|done].
    intros [= <- <-]. simpl. f_equal. by eapply IH.
Qed.

(** The loop of [array_scan] is the running fold followed by the
    conversions: it returns exactly when every call of [fn] returns and
    every running value can be stored. *)
Lemma scan_loop_runs fn dt init xs h ys h' :
  scan_loop fn dt init xs h = (Ok ys, h') →
  ∃ accs, running_fold fn init (item0 dt <$> xs) h = (Ok accs, h') ∧
          mapM_res (np_cast dt) accs = Ok ys.
Proof.
  revert init h ys. induction xs as [|x xs IH]; intros init h ys.
  - intros [= <- <-]. by exists [].
  - rewrite fmap_cons. cbn [scan_loop running_fold].
    unfold mbind at 1 4, M_bind at 1 4.
    destruct (fn [init; item0 dt x] h) as [[v|e] h1]; [|done].
    unfold mbind at 1, M_bind at 1, lift.
    destruct (np_cast dt v) as [y|e] eqn:Hy; [|done].
    unfold mbind, M_bind.
    destruct (scan_loop fn dt v xs h1) as [[ys'|e] h2] eqn:Hloop; [|done].
    intros [= <- <-].
    destruct (IH _ _ _ Hloop) as (accs & Hrun & Hcast).
    exists (v :: accs). rewrite Hrun. split; [done|].
    simpl. by rewrite Hy, Hcast.
Qed.

Lemma running_scan_loop fn dt init xs h accs ys h' :
  running_fold fn init (item0 dt <$> xs) h = (Ok accs, h') →
  mapM_res (np_cast dt) accs = Ok ys →
  scan_loop fn dt init xs h = (Ok ys, h').
Proof.
  revert init h accs ys. induction xs as [|x xs IH]; intros init h accs ys.
  - intros [= <- <-] [= <-]. done.
  - rewrite fmap_cons. cbn [scan_loop running_fold].
    unfold mbind at 1 3, M_bind at 1 3.
    destruct (fn [init; item0 dt x] h) as [[v|e] h1]; [|done].
    unfold mbind at 1 2, M_bind at 1 2.
    destruct (running_fold fn v (item0 dt <$> xs) h1)
      as [[accs'|e] h2] eqn:Hrun; [|done].
    intros [= <- <-]. cbn [mapM_res].
    destruct (np_cast dt v) as [y|e] eqn:Hy; [|done]. simpl.
    destruct (mapM_res (np_cast dt) accs') as [ys'|e] eqn:Hcast; [|done].
    simpl. intros [= <-].
    unfold mbind at 1, M_bind at 1, lift.
    unfold mbind, M_bind. by rewrite (IH _ _ _ _ Hrun Hcast).
Qed.

Lemma slices_scan_runs fn dt init ss h rs h' :
  Forall (λ s, s ≠ []) ss →
  mapM_st (λ ary, nditer ary (scan_loop fn dt init ary)) ss h = (Ok rs, h') →
  ∃ accss,
    mapM_st (λ s, running_fold fn init (item0 dt <$> s)) ss h
      = (Ok accss, h') ∧
    Forall2 (λ accs r, mapM_res (np_cast dt) accs = Ok r) accss rs.
Proof.
  intros Hne. revert h rs.
  induction Hne as [|s ss Hs _ IH]; intros h rs.
  - intros [= <- <-]. exists []. split; [done | constructor].
  - cbn [mapM_st]. unfold mbind at 1 3, M_bind at 1 3.
    replace (nditer s (scan_loop fn dt init s) h)
      with (scan_loop fn dt init s h) by (by destruct s).
    destruct (scan_loop fn dt init s h) as [[r|e] h1] eqn:Hloop; [|done].
    unfold mbind at 1, M_bind at 1.
    destruct (mapM_st _ ss h1) as [[rs'|e] h2] eqn:Hrest; [|done].
    intros [= <- <-].
    apply scan_loop_runs in Hloop as (accs & Hrun & Hcast).
    destruct (IH _ _ Hrest) as (accss & Hruns & Hall).
    exists (accs :: accss). rewrite Hrun.
    unfold mbind, M_bind. rewrite Hruns. split; [done | by constructor].
Qed.

Lemma running_slices_scan fn dt init ss h accss rs h' :
  Forall (λ s, s ≠ []) ss →
  mapM_st (λ s, running_fold fn init (item0 dt <$> s)) ss h
    = (Ok accss, h') →
  Forall2 (λ accs r, mapM_res (np_cast dt) accs = Ok r) accss rs →
  mapM_st (λ ary, nditer ary (scan_loop fn dt init ary)) ss h = (Ok rs, h').
Proof.
  intros Hne. revert h accss rs.
  induction Hne as [|s ss Hs _ IH]; intros h accss rs.
  - intros [= <- <-] Hall. by inversion Hall.
  - cbn [mapM_st]. unfold mbind at 1 3, M_bind at 1 3.
    destruct (running_fold fn init (item0 dt <$> s) h)
      as [[accs|e] h1] eqn:Hrun; [|done].
    unfold mbind at 1, M_bind at 1.
    destruct (mapM_st _ ss h1) as [[accss'|e] h2] eqn:Hruns; [|done].
    intros [= <- <-] Hall.
    inversion Hall as [|? r ? rs' Hcast Hrest]; subst.
    replace (nditer s (scan_loop fn dt init s) h)
      with (scan_loop fn dt init s h) by (by destruct s).
    rewrite (running_scan_loop _ _ _ _ _ _ _ _ Hrun Hcast).
    unfold mbind, M_bind. by rewrite (IH _ _ _ Hruns Hrest).
Qed.
(** Each result of a run over a list of slices comes from its slice, at
    the store the slices before it left. *)
Lemma mapM_st_lookup {A B} (f : A → M B) xs h ys h' n x :
  mapM_st f xs h = (Ok ys, h') → xs !! n = Some x →
  ∃ y h1 h2, ys !! n = Some y ∧ f x h1 = (Ok y, h2).
Proof.
  revert h ys n. induction xs as [|x0 xs IH]; intros h ys n; [done|].
  cbn [mapM_st]. unfold mbind at 1, M_bind at 1.
  destruct (f x0 h) as [[y0|e] h1] eqn:Hx0; [|done].
  unfold mbind, M_bind.
  destruct (mapM_st f xs h1) as [[ys'|e] h2] eqn:Hrest; [|done].
  intros [= <- <-]. destruct n as [|n]; simpl.
  - intros [= <-]. eauto.
  - intros Hx. by eapply IH.
Qed.

(** C2, as amended.  Along the given axis, [array_scan] carries a running
    value [acc]: the 1-D slices taken along the axis are gone through one
    after the other and, on each slice [x0, x1, ...], the calls
    [acc0 = fn(init, x0)], [acc_i = fn(acc_(i-1), x_i)] are made in this
    order, whatever [fn] is; the output at position [i] of the slice is
    [acc_i] converted to the element type of the array.  When all these
    calls return and all the running values can be stored, the call
    returns an array of the shape and element type of its argument, with
    these outputs; and it returns in no other way.  Where storing keeps
    the running values as they are, the outputs are the running values
    themselves: output 0 is [fn(init, x0)] and output [i] is
    [fn(output (i-1), x_i)].  The elements [x_i] reach [fn] as 0-d
    arrays.  On the 1-D array [[1, 2, 3]] with [init = 0], [fn] =
    addition and axis 0 the result is [[1, 3, 6]]. *)
Theorem array_scan_running_fold :
  (∀ fn init a axis k h,
     normalize_axis_index axis (length (nd_shape a)) = Ok k →
     let dt := nd_dtype a in
     let outer := foldr Nat.mul 1 (take k (nd_shape a)) in
     let len := default 0 (nd_shape a !! k) in
     let inner := foldr Nat.mul 1 (drop (S k) (nd_shape a)) in
     let run :=
       mapM_st (λ s, running_fold fn init (item0 dt <$> s))
         (slices outer len inner (nd_data a)) in
     let stored accss rs :=
       Forall2 (λ accs r, mapM_res (np_cast dt) accs = Ok r) accss rs in
     0 < outer * inner → 0 < len →
     (∀ accss rs h',
        run h = (Ok accss, h') → stored accss rs →
        let out := mk_ndarray dt (nd_shape a) (gather outer len inner rs) in
        array_scan fn init (VArray a) axis h = (Ok (VArray out), h') ∧
        ∀ o i, o < outer → i < inner →
          ∃ accs h1 h2,
            running_fold fn init
              (item0 dt <$> slice_at len inner (nd_data a) o i) h1
              = (Ok accs, h2) ∧
            accss !! (o * inner + i) = Some accs ∧
            mapM_res (np_cast dt) accs
              = Ok (slice_at len inner (nd_data out) o i) ∧
            (Forall (stored_exactly dt) accs →
             value_of <$> slice_at len inner (nd_data out) o i = accs)) ∧
     (∀ v h',
        array_scan fn init (VArray a) axis h = (Ok v, h') →
        ∃ accss rs,
          run h = (Ok accss, h') ∧ stored accss rs ∧
          v = VArray (mk_ndarray dt (nd_shape a)
                        (gather outer len inner rs)))) ∧
  (∀ h,
     array_scan int_add (VInt 0)
       (VArray (mk_ndarray int64 [3] [NInt 1; NInt 2; NInt 3])) (VInt 0) h
     = (Ok (VArray (mk_ndarray int64 [3] [NInt 1; NInt 3; NInt 6])), h)).
Proof.
  split; [|reflexivity].
  intros fn init a axis k h Haxis dt outer len inner run stored Hpos Hlen.
  assert (Hne : Forall (λ s, s ≠ []) (slices outer len inner (nd_data a))).
  { apply Forall_forall. intros s Hs.
    apply slices_elem in Hs as (o & i & _ & _ & ->).
    pose proof (slice_at_length len inner (nd_data a) o i) as Hl.
    destruct (slice_at len inner (nd_data a) o i); [simpl in Hl; lia|done]. }
  assert (Hscan : ∀ rs h',
    mapM_st (λ ary, nditer ary (scan_loop fn dt init ary))
      (slices outer len inner (nd_data a)) h = (Ok rs, h') →
    array_scan fn init (VArray a) axis h
    = (Ok (VArray (mk_ndarray dt (nd_shape a) (gather outer len inner rs))),
       h')).
  { intros rs h' Hrs.
    unfold array_scan, mbind at 1, M_bind at 1. simpl.
    unfold fmap, M_fmap, apply_along_axis, mbind at 1, M_bind at 1, lift.
    rewrite Haxis. fold outer len inner dt.
    rewrite decide_False by lia.
    unfold mbind, M_bind. by rewrite Hrs. }
  split.
  - intros accss rs h' Hrun Hstored out. split.
    + apply Hscan. by eapply running_slices_scan.
    + intros o i Ho Hi. cbn [nd_data out].
      destruct (mapM_st_lookup _ _ _ _ _ _ _ Hrun
                  (slices_lookup outer len inner (nd_data a) o i Ho Hi))
        as (accs & h1 & h2 & Haccs & Hfold).
      destruct (Forall2_lookup_l _ _ _ _ _ Hstored Haccs)
        as (r & Hr & Hcast).
      assert (Hrlen : length r = len).
      { rewrite (mapM_res_length _ _ _ Hcast),
                (running_fold_length _ _ _ _ _ _ Hfold).
        by rewrite length_fmap, slice_at_length. }
      rewrite (slice_at_gather outer len inner rs o i r Ho Hi Hr Hrlen).
      exists accs, h1, h2. repeat split; try done.
      by apply stored_exactly_values.
  - intros v h' Hv.
    destruct (mapM_st (λ ary, nditer ary (scan_loop fn dt init ary))
                (slices outer len inner (nd_data a)) h)
      as [[rs|e] h1] eqn:Hrs.
    + rewrite (Hscan _ _ eq_refl) in Hv. injection Hv as <- <-.
      apply slices_scan_runs in Hrs as (accss & Hrun & Hstored); [|done].
      by exists accss, rs.
    + exfalso. revert Hv.
      unfold array_scan, mbind at 1, M_bind at 1. simpl.
      unfold fmap, M_fmap, apply_along_axis, mbind at 1, M_bind at 1, lift.
      rewrite Haxis. fold outer len inner dt.
      rewrite decide_False by lia.
      unfold mbind, M_bind. by rewrite Hrs.
Qed.

End Scan.

(** Addition from 0 over [[1, 2, 3]]: the running values are 1, 3 and 6,
    each stored as it is. *)
Lemma array_scan_running_fold_witness :
  @array_scan bare_host int_add (VInt 0)
    (VArray (mk_ndarray int64 [3] [NInt 1; NInt 2; NInt 3])) (VInt 0) []
  = (Ok (VArray (mk_ndarray int64 [3] [NInt 1; NInt 3; NInt 6])), []).
Proof.
  destruct (@array_scan_running_fold bare_host) as [Hgen _].
  destruct (Hgen int_add (VInt 0)
              (mk_ndarray int64 [3] [NInt 1; NInt 2; NInt 3]) (VInt 0) 0 []
              eq_refl ltac:(simpl; lia) ltac:(simpl; lia)) as [Hrun _].
  destruct (Hrun [[VInt 1; VInt 3; VInt 6]] [[NInt 1; NInt 3; NInt 6]] []
              eq_refl ltac:(repeat constructor)) as [Hout _].
  exact Hout.
Defined.

(** C2 as stated does not hold.  With [init = 0.5] and [fn] returning its
    first argument, over the integer array [[1, 2, 3]], the output at
    position 0 is the integer 0, not [fn(init, array[0])], which is 0.5. *)
Lemma array_scan_output_is_converted :
  ¬ (∀ (host : PyHost) fn g init dt xs out h,
       pure_binary fn g →
       array_scan fn init (VArray (mk_ndarray dt [length xs] xs)) (VInt 0) h
         = (Ok (VArray out), h) →
       value_of <$> nd_data out = inclusive_scan g init (item0 dt <$> xs)).
Proof.
  intros H.
  specialize (H bare_host keep_first (λ a _, a)
                (VFloat (S754_finite false 4503599627370496 (-53)))
                int64 [NInt 1; NInt 2; NInt 3]
                (mk_ndarray int64 [3] [NInt 0; NInt 0; NInt 0]) []).
  discriminate H; [intros a b h; reflexivity | reflexivity].
Qed.

(** Along either axis of the 2-D array [[[1, 2, 3], [10, 20, 30]]]. *)
Lemma array_scan_two_rows h :
  @array_scan bare_host int_add (VInt 0)
    (VArray (mk_ndarray int64 [2; 3]
       [NInt 1; NInt 2; NInt 3; NInt 10; NInt 20; NInt 30])) (VInt 1) h
  = (Ok (VArray (mk_ndarray int64 [2; 3]
       [NInt 1; NInt 3; NInt 6; NInt 10; NInt 30; NInt 60])), h) ∧
  @array_scan bare_host int_add (VInt 0)
    (VArray (mk_ndarray int64 [2; 3]
       [NInt 1; NInt 2; NInt 3; NInt 10; NInt 20; NInt 30])) (VInt 0) h
  = (Ok (VArray (mk_ndarray int64 [2; 3]
       [NInt 1; NInt 2; NInt 3; NInt 11; NInt 22; NInt 33])), h).
Proof. split; reflexivity. Qed.

(** * Further properties of the module *)

(** ** Tuples *)

Section MoreTuples.
Context {host : PyHost}.

(** X1. [head] and [tail] undo [cons_tuple]: on the tuple built from [x]
    and a tuple [t], [head] gives [x] back and [tail] gives [t] back. *)
Theorem cons_head_tail x xs h :
  (t ← cons_tuple x (VTuple xs); head t) h = (Ok x, h) ∧
  (t ← cons_tuple x (VTuple xs); tail t) h = (Ok (VTuple xs), h) ∧
  (t ← cons_tuple x (VTuple xs); read (λ h, py_len h t)) h
    = (Ok (Z.of_nat (S (length xs))), h).
Proof. repeat split. Qed.

End MoreTuples.

(** ** More on [typeof] and [hastype] *)

Lemma mapM_res_Raise {A B} (f : A → res B) xs e :
  mapM_res f xs = Raise e → ∃ x, x ∈ xs ∧ f x = Raise e.
Proof.
  induction xs as [|x xs IH]; simpl; [done|].
  destruct (f x) as [y|e'] eqn:Hx; simpl.
  - destruct (mapM_res f xs) as [ys|e'] eqn:Hxs; simpl; [done|].
    intros [= ->]. destruct IH as (x' & Hin & Hx'); [done|].
    exists x'. split; [by right | done].
  - intros [= ->]. exists x. split; [by left | done].
Qed.

(** X2. The type of a tuple is the [Tuple] of the types of its elements,
    in order; elements of different types are accepted, unlike in a list.
    The error of an element that has no type is the error of the tuple. *)
Theorem typeof_tuple depth h xs :
  (∀ Ts, Forall2 (λ x T, typeof depth h x = Ok T) xs Ts →
         typeof (S depth) h (VTuple xs) = Ok (types.Tuple Ts)) ∧
  (∀ e, mapM_res (typeof depth h) xs = Raise e →
        typeof (S depth) h (VTuple xs) = Raise e).
Proof.
  split.
  - intros Ts HTs. cbn [typeof]. by rewrite (mapM_res_Forall2 _ _ _ HTs).
  - intros e He. cbn [typeof]. by rewrite He.
Qed.

Lemma typeof_tuple_witness :
  typeof 1 [] (VTuple [VInt 1; VBool true; VTuple []])
  = Ok (types.Tuple [types.Int 64; types.Bool; types.Tuple []]).
Proof.
  destruct (typeof_tuple 0 [] [VInt 1; VBool true; VTuple []]) as [Hok _].
  apply Hok. repeat constructor.
Defined.

(** X3. [typeof] fails in two ways only: with [TypeError], for a list
    whose elements differ in type, and with [RecursionError], when the
    nesting is deeper than calls may nest. *)
Theorem typeof_errors depth h x e :
  typeof depth h x = Raise e → e = TypeError ∨ e = RecursionError.
Proof.
  revert x e. induction depth as [|depth IH]; intros x e.
  - destruct x; cbn [typeof]; try done;
      try (by match goal with n : npval |- _ => destruct n end).
    + destruct (mapM_res _ elems) as [ts|e'] eqn:Hm; simpl; [done|].
      intros [= ->]. apply mapM_res_Raise in Hm as (y & _ & [= ->]).
      by right.
    + destruct (_ !! l) as [[[|x0 xs]| |]|]; try done.
      destruct (mapM_res _ (x0 :: xs)) as [ts|e'] eqn:Hm; simpl.
      * destruct ts as [|type0 rest]; [by apply mapM_res_length in Hm|].
        case_match; [|done]. intros [= <-]. by left.
      * intros [= ->]. apply mapM_res_Raise in Hm as (y & _ & [= ->]).
        by right.
  - destruct x; cbn [typeof]; try done;
      try (by match goal with n : npval |- _ => destruct n end).
    + destruct (mapM_res _ elems) as [ts|e'] eqn:Hm; simpl; [done|].
      intros [= ->]. apply mapM_res_Raise in Hm as (y & _ & Hy).
      by apply IH in Hy.
    + destruct (_ !! l) as [[[|x0 xs]| |]|]; try done.
      destruct (mapM_res _ (x0 :: xs)) as [ts|e'] eqn:Hm; simpl.
      * destruct ts as [|type0 rest]; [by apply mapM_res_length in Hm|].
        case_match; [|done]. intros [= <-]. by left.
      * intros [= ->]. apply mapM_res_Raise in Hm as (y & _ & Hy).
        by apply IH in Hy.
Qed.

(** A list that contains itself: the inference runs out of depth. *)
Lemma typeof_errors_witness :
  typeof 3 [OList [VRef 0]] (VRef 0) = Raise RecursionError.
Proof.
  destruct (typeof_errors 3 [OList [VRef 0]] (VRef 0) RecursionError eq_refl)
    as [H|H]; [discriminate H | reflexivity].
Defined.

Section MoreTypes.
Context {host : PyHost}.

(** X4. [hastype(x, t)] is true for the type [t] that [typeof] gives to
    [x], false for any other type, except for the class [Type] itself,
    which every value matches; and it fails as [typeof] fails. *)
Theorem hastype_of_typeof depth h x :
  (∀ t, typeof depth h x = Ok t →
     hastype depth x (VType t) h = (Ok (VBool true), h) ∧
     hastype depth x (VType types.TypeOfType) h = (Ok (VBool true), h) ∧
     ∀ m, m ≠ t → m ≠ types.TypeOfType →
          hastype depth x (VType m) h = (Ok (VBool false), h)) ∧
  (∀ e model, typeof depth h x = Raise e →
     hastype depth x model h = (Raise e, h)).
Proof.
  split.
  - intros t Ht. unfold hastype, mbind, M_bind, read. rewrite Ht.
    split; [|split].
    + unfold lift. simpl.
      destruct t; try done; by rewrite bool_decide_eq_true_2.
    + done.
    + intros m Hm HT. unfold lift. simpl.
      destruct m; try done; by rewrite bool_decide_eq_false_2.
  - intros e model He. unfold hastype, mbind, M_bind, read. by rewrite He.
Qed.

End MoreTypes.

Lemma hastype_of_typeof_witness :
  @hastype bare_host 5 (VInt 3) (VType (types.Int 64)) []
    = (Ok (VBool true), []) ∧
  @hastype bare_host 5 (VInt 3) (VType (types.Float 64)) []
    = (Ok (VBool false), []).
Proof.
  destruct (@hastype_of_typeof bare_host 5 [] (VInt 3)) as [Hok _].
  destruct (Hok (types.Int 64) eq_refl) as (Hsame & _ & Hother).
  split; [exact Hsame | by apply Hother].
Defined.

(** ** The guard of the scalar primitives *)

Section MoreScalars.
Context {host : PyHost}.

Lemma _assert_scalar_rejects args :
  Exists (λ x, ¬ is_scalar x) args → _assert_scalar args = Raise TypeError.
Proof.
  induction 1 as [x args Hx | x args _ IH]; simpl.
  - destruct x as [| | | | | | | |a| | | |e];
      simpl in Hx; try done; try (by destruct Hx).
    + by rewrite decide_False.
    + destruct e; try done; by destruct Hx.
  - destruct x as [| | | | | | | |a| | | |e]; try done.
    + case_decide; done.
    + by destruct e.
Qed.

(** X5. A scalar primitive applies its operator only to numbers: as soon
    as an argument is neither a host number nor a 0-d array (a string,
    [None], a tuple, a list, ...) the call raises [TypeError], whatever
    the operator would have done with it. *)
Theorem scalar_guard_rejects :
  Forall (λ f : Value → Value → M Value,
      ∀ x y h, ¬ is_scalar x ∨ ¬ is_scalar y →
        f x y h = (Raise TypeError, h))
    [ scalar_add; scalar_sub; scalar_mul; scalar_div; scalar_mod;
      scalar_pow; scalar_eq; scalar_lt; scalar_gt; scalar_ne;
      scalar_le; scalar_ge ] ∧
  Forall (λ f : Value → M Value,
      ∀ x h, ¬ is_scalar x → f x h = (Raise TypeError, h))
    [ scalar_uadd; scalar_usub ].
Proof.
  assert (Hguard : ∀ A args (m : M A) h,
    Exists (λ x, ¬ is_scalar x) args →
    (_ ← lift (_assert_scalar args); m) h = (Raise TypeError, h)).
  { intros A args m h Hex. unfold mbind, M_bind, lift.
    by rewrite (_assert_scalar_rejects _ Hex). }
  split.
  - repeat first [apply List.Forall_nil | apply List.Forall_cons];
      intros x y h Hxy; apply Hguard;
      (destruct Hxy;
       [ by apply Exists_cons_hd | by apply Exists_cons_tl, Exists_cons_hd ]).
  - repeat first [apply List.Forall_nil | apply List.Forall_cons];
      intros x h Hx; apply Hguard; by apply Exists_cons_hd.
Qed.

End MoreScalars.

(** Two strings are not concatenated, and [None] has no negative. *)
Lemma scalar_guard_rejects_witness :
  @scalar_add bare_host (VStr "a") (VStr "b") [] = (Raise TypeError, []) ∧
  @scalar_usub bare_host VNone [] = (Raise TypeError, []).
Proof.
  destruct (@scalar_guard_rejects bare_host) as [Hbin Hun].
  apply Forall_cons in Hbin as [Hadd _].
  apply Forall_cons in Hun as [_ Hun]. apply Forall_cons in Hun as [Hneg _].
  split; [apply Hadd; left; intros [] | apply Hneg; intros []].
Defined.

(** ** More on [setitem] *)

Section MoreSetitem.
Context {host : PyHost}.

Lemma seq_slot_negative {A} (xs : list A) (k : Z) :
  (- Z.of_nat (length xs) ≤ k < 0)%Z →
  seq_slot xs k = Ok (Z.to_nat (k + Z.of_nat (length xs))).
Proof.
  intros Hk. unfold seq_slot.
  replace (k <? 0)%Z with true by (symmetry; apply Z.ltb_lt; lia).
  replace (0 <=? k + Z.of_nat (length xs))%Z with true
    by (symmetry; apply Z.leb_le; lia).
  replace (k + Z.of_nat (length xs) <? Z.of_nat (length xs))%Z with true
    by (symmetry; apply Z.ltb_lt; lia).
  done.
Qed.

(** What [setitem] does on a list of the store whose slot for the index
    is [k]: a new list is appended to the store, with position [k] set. *)
Lemma setitem_list_slot l xs i (z : Z) k v h :
  h !! l = Some (OList xs) → as_index i = Some z → seq_slot xs z = Ok k →
  setitem (VRef l) i v h
  = (Ok (VRef (length h)), h ++ [OList (<[k := v]> xs)]).
Proof.
  intros Hl Hi Hk. simpl. unfold mbind, M_bind. simpl. rewrite Hl. simpl.
  rewrite lookup_app_r, Nat.sub_diag by done. simpl. rewrite Hi, Hk.
  by rewrite insert_app_r_alt, Nat.sub_diag by done.
Qed.

(** X6. For a tuple or list with elements [xs] and an index
    [0 <= k < len], the result of [setitem] holds exactly [xs] with
    position [k] replaced: same length, the value at [k], and every other
    position as in the argument.  For a list the result is a new list,
    never the argument. *)
Theorem setitem_replaces_exactly d xs (k : Z) v h :
  sequence_of h d = Some xs →
  (0 ≤ k < Z.of_nat (length xs))%Z →
  ∃ r, (setitem d (VInt k) v h).1 = Ok r ∧
       sequence_of (setitem d (VInt k) v h).2 r
         = Some (<[Z.to_nat k := v]> xs) ∧
       (∀ j y, j ≠ Z.to_nat k → xs !! j = Some y →
          getitem r (VInt (Z.of_nat j)) (setitem d (VInt k) v h).2
          = (Ok y, (setitem d (VInt k) v h).2)) ∧
       (∀ l, d = VRef l → r ≠ d).
Proof.
  intros Hd Hk.
  assert (Hget : ∀ (h' : heap) r, sequence_of h' r
                   = Some (<[Z.to_nat k := v]> xs) →
            ∀ j y, j ≠ Z.to_nat k → xs !! j = Some y →
            getitem r (VInt (Z.of_nat j)) h' = (Ok y, h')).
  { intros h' r Hr j y Hj Hy.
    assert (Hy' : (<[Z.to_nat k := v]> xs) !! Z.to_nat (Z.of_nat j) = Some y).
    { rewrite Nat2Z.id. by rewrite list_lookup_insert_ne. }
    apply seq_index_nonneg in Hy'; [|lia].
    destruct r; simpl in Hr; try done.
    - injection Hr as ->. unfold getitem. simpl. unfold lift. by rewrite Hy'.
    - unfold getitem. simpl.
      destruct (_ !! l) as [[items| |]|]; try done.
      injection Hr as ->. by rewrite Hy'. }
  destruct d; simpl in Hd; try done.
  - injection Hd as ->.
    exists (VTuple (<[Z.to_nat k := v]> xs)).
    assert (Hset : setitem (VTuple xs) (VInt k) v h
                   = (Ok (VTuple (<[Z.to_nat k := v]> xs)), h)).
    { simpl. unfold lift. rewrite replace_where_int.
      rewrite decide_True by lia. by rewrite Z.sub_0_r. }
    rewrite Hset. simpl. repeat split; [|done].
    intros j y Hj Hy. by apply (Hget h (VTuple _)).
  - destruct (_ !! l) as [[items| |]|] eqn:Hl; try done.
    injection Hd as ->.
    exists (VRef (length h)).
    rewrite (setitem_list_slot l xs (VInt k) k (Z.to_nat k) v h Hl eq_refl
               (seq_slot_nonneg _ _ Hk)).
    assert (Hnew : sequence_of (h ++ [OList (<[Z.to_nat k := v]> xs)])
                     (VRef (length h)) = Some (<[Z.to_nat k := v]> xs)).
    { simpl. by rewrite lookup_app_r, Nat.sub_diag by done. }
    simpl fst. simpl snd. repeat split; [done| |].
    + intros j y Hj Hy. by apply (Hget _ _ Hnew).
    + intros l' [= <-] [= Heq]. apply lookup_lt_Some in Hl. lia.
Qed.

(** X7. A list accepts an index counted from the end: for
    [-len <= k < 0], [setitem] gives a new list with position [len + k]
    set.  A tuple does not: the same index leaves every element as it
    was. *)
Theorem setitem_negative_index xs (k : Z) v h :
  (- Z.of_nat (length xs) ≤ k < 0)%Z →
  (∀ l, h !! l = Some (OList xs) →
     setitem (VRef l) (VInt k) v h
     = (Ok (VRef (length h)),
        h ++ [OList (<[Z.to_nat (k + Z.of_nat (length xs)) := v]> xs)])) ∧
  setitem (VTuple xs) (VInt k) v h = (Ok (VTuple xs), h).
Proof.
  intros Hk. split.
  - intros l Hl.
    by apply (setitem_list_slot l xs (VInt k) k), seq_slot_negative.
  - apply setitem_tuple_out_of_range. lia.
Qed.

Lemma replace_where_same_eq item1 item2 v i xs :
  (∀ j, py_int_eq j item1 = py_int_eq j item2) →
  replace_where item1 v i xs = replace_where item2 v i xs.
Proof.
  intros Heq. revert i. induction xs as [|x xs IH]; intros i; [done|].
  cbn [replace_where]. by rewrite Heq, IH.
Qed.

(** X8. The tuple branch finds the position by [i == item], not by
    indexing: a boolean index is the position 0 or 1, and a float equal
    to an integer is that position.  The list branch indexes, and raises
    [TypeError] on a float. *)
Theorem setitem_tuple_index_by_equality xs v h :
  (∀ b, setitem (VTuple xs) (VBool b) v h
        = setitem (VTuple xs) (VInt (Z.b2z b)) v h) ∧
  (∀ f k, float_to_Z f = Some k →
        setitem (VTuple xs) (VFloat f) v h
        = setitem (VTuple xs) (VInt k) v h) ∧
  (∀ f l, h !! l = Some (OList xs) →
        (setitem (VRef l) (VFloat f) v h).1 = Raise TypeError).
Proof.
  split; [|split].
  - intros b. simpl. unfold lift.
    by rewrite (replace_where_same_eq (VBool b) (VInt (Z.b2z b))).
  - intros f k Hf. simpl. unfold lift.
    rewrite (replace_where_same_eq (VFloat f) (VInt k)); [done|].
    intros j. simpl. by rewrite Hf.
  - intros f l Hl. simpl. unfold mbind, M_bind. simpl. rewrite Hl. simpl.
    by rewrite lookup_app_r, Nat.sub_diag by done.
Qed.

End MoreSetitem.

Lemma setitem_replaces_exactly_witness :
  ∃ r, (@setitem bare_host (VRef 0) (VInt 1) (VInt 9)
          [OList [VInt 1; VInt 2; VInt 3]]).1 = Ok r ∧
       @getitem bare_host r (VInt 2)
         (@setitem bare_host (VRef 0) (VInt 1) (VInt 9)
            [OList [VInt 1; VInt 2; VInt 3]]).2
       = (Ok (VInt 3),
          [OList [VInt 1; VInt 2; VInt 3]; OList [VInt 1; VInt 9; VInt 3]]).
Proof.
  destruct (@setitem_replaces_exactly bare_host (VRef 0)
              [VInt 1; VInt 2; VInt 3] 1 (VInt 9)
              [OList [VInt 1; VInt 2; VInt 3]] eq_refl)
    as (r & Hr & _ & Hother & _); [simpl; lia|].
  exists r. split; [exact Hr|].
  apply (Hother 2%nat (VInt 3)); [simpl; lia | reflexivity].
Defined.

Lemma setitem_negative_index_witness :
  @setitem bare_host (VRef 0) (VInt (-1)) (VInt 9)
    [OList [VInt 1; VInt 2; VInt 3]]
  = (Ok (VRef 1),
     [OList [VInt 1; VInt 2; VInt 3]; OList [VInt 1; VInt 2; VInt 9]]) ∧
  @setitem bare_host (VTuple [VInt 1; VInt 2; VInt 3]) (VInt (-1)) (VInt 9)
    [OList [VInt 1; VInt 2; VInt 3]]
  = (Ok (VTuple [VInt 1; VInt 2; VInt 3]), [OList [VInt 1; VInt 2; VInt 3]]).
Proof.
  destruct (@setitem_negative_index bare_host [VInt 1; VInt 2; VInt 3]
              (-1) (VInt 9) [OList [VInt 1; VInt 2; VInt 3]])
    as [Hlist Htuple]; [simpl; lia|].
  split; [exact (Hlist 0%nat eq_refl) | exact Htuple].
Defined.

(** The float [1.0] replaces position 1 of a tuple. *)
Lemma setitem_tuple_index_by_equality_witness :
  @setitem bare_host (VTuple [VInt 1; VInt 2; VInt 3])
    (VFloat (S754_finite false 1 0)) (VInt 9) []
  = (Ok (VTuple [VInt 1; VInt 9; VInt 3]), []).
Proof.
  destruct (@setitem_tuple_index_by_equality bare_host
              [VInt 1; VInt 2; VInt 3] (VInt 9) []) as (_ & Hfloat & _).
  rewrite (Hfloat (S754_finite false 1 0) 1%Z eq_refl). reflexivity.
Defined.

(** ** Attributes *)

Section Attributes.
Context {host : PyHost}.

(** X9. Reading back what [setattr] wrote: on an instance, [setattr]
    returns a new object on which the VM's [getattr] finds the value
    given under the name given and, under any other name, the value the
    argument has; the argument itself still reads as before. *)
Theorem setattr_getattr_round_trip (vm : VM) l c attrs name v h :
  h !! l = Some (OInstance c attrs) →
  ∃ r, (setattr (VRef l) (VStr name) v h).1 = Ok r ∧ r ≠ VRef l ∧
    let h' := (setattr (VRef l) (VStr name) v h).2 in
    _vm_getattr vm r (VStr name) h' = convert vm v h' ∧
    (∀ other w, other ≠ name → attrs !! other = Some w →
       _vm_getattr vm r (VStr other) h' = convert vm w h') ∧
    (∀ other w, attrs !! other = Some w →
       _vm_getattr vm (VRef l) (VStr other) h' = convert vm w h').
Proof.
  intros Hl. exists (VRef (length h)).
  assert (Hset : setattr (VRef l) (VStr name) v h
    = (Ok (VRef (length h)),
       h ++ [OInstance c (<[name := v]> attrs)])).
  { unfold setattr, mbind, M_bind. simpl. rewrite Hl. simpl.
    rewrite lookup_app_r, Nat.sub_diag by done. simpl.
    by rewrite insert_app_r_alt, Nat.sub_diag by done. }
  rewrite Hset. simpl fst. simpl snd.
  split; [done|]. split.
  { intros [= Heq]. apply lookup_lt_Some in Hl. lia. }
  split; [|split].
  - unfold _vm_getattr, mbind, M_bind. simpl.
    rewrite lookup_app_r, Nat.sub_diag by done. simpl.
    by rewrite lookup_insert_eq.
  - intros other w Hne Hw. unfold _vm_getattr, mbind, M_bind. simpl.
    rewrite lookup_app_r, Nat.sub_diag by done. simpl.
    by rewrite lookup_insert_ne, Hw by done.
  - intros other w Hw. unfold _vm_getattr, mbind, M_bind. simpl.
    rewrite (lookup_app_l_Some _ _ _ _ Hl). by rewrite Hw.
Qed.

End Attributes.

Lemma setattr_getattr_round_trip_witness :
  ∃ r, (@setattr bare_host (VRef 0) (VStr "x") (VInt 5)
          [OInstance 0 {[ "x" := VInt 1 ]}]).1 = Ok r ∧
    @_vm_getattr bare_host (@direct_vm bare_host) r (VStr "x")
      (@setattr bare_host (VRef 0) (VStr "x") (VInt 5)
         [OInstance 0 {[ "x" := VInt 1 ]}]).2
    = (Ok (VInt 5),
       (@setattr bare_host (VRef 0) (VStr "x") (VInt 5)
         [OInstance 0 {[ "x" := VInt 1 ]}]).2).
Proof.
  destruct (@setattr_getattr_round_trip bare_host (@direct_vm bare_host)
              0 0 {[ "x" := VInt 1 ]} "x" (VInt 5)
              [OInstance 0 {[ "x" := VInt 1 ]}] eq_refl)
    as (r & Hr & _ & Hsame & _).
  exists r. split; [exact Hr | exact Hsame].
Defined.

(** ** Partial application *)

Section Partial.
Context {host : PyHost}.

(** X10. Calling the result of [partial(f, a1, ..., an)] on
    [b1, ..., bm] is calling [f] on [a1, ..., an, b1, ..., bm], the
    arguments given first coming first; [partial] itself calls nothing
    and only adds the new function to the store.  Partial applications
    nest: the arguments accumulate in the order they were given. *)
Theorem partial_call f args others depth h :
  ∃ r, partial f args h = (Ok r, h ++ [OFunction (Closure f args) ∅]) ∧
    let h' := h ++ [OFunction (Closure f args) ∅] in
    call_value (S depth) r others h' = call_value depth f (args ++ others) h' ∧
    ∀ more, ∃ r2,
      partial r more h' = (Ok r2, h' ++ [OFunction (Closure r more) ∅]) ∧
      call_value (S (S depth)) r2 others
        (h' ++ [OFunction (Closure r more) ∅])
      = call_value depth f (args ++ more ++ others)
        (h' ++ [OFunction (Closure r more) ∅]).
Proof.
  exists (VRef (length h)). split; [done|]. split.
  - cbn [call_value]. by rewrite lookup_app_r, Nat.sub_diag by done.
  - intros more. eexists. split; [done|].
    cbn [call_value]. rewrite lookup_app_r, Nat.sub_diag by done.
    cbn [lookup list_lookup].
    rewrite lookup_app_l by (rewrite length_app; simpl; lia).
    by rewrite lookup_app_r, Nat.sub_diag by done.
Qed.

End Partial.

(** ** More on the two registries *)

Section MoreRegistry.
Context {host : PyHost}.

(** X11. What each registry covers: [getattr] and [resolve] have a
    VM-coupled implementation only, [partial] has a pure implementation
    only, and every other primitive has an entry in both registries. *)
Theorem registry_coverage :
  py_implementations !! primops.getattr = None ∧
  py_implementations !! primops.resolve = None ∧
  vm_implementations !! primops.partial = None ∧
  ∀ prim,
    (prim ≠ primops.getattr → prim ≠ primops.resolve →
       is_Some (py_implementations !! prim)) ∧
    (prim ≠ primops.partial → is_Some (vm_implementations !! prim)).
Proof.
  repeat split; try reflexivity.
  - intros Hga Hre. destruct prim; try done; eexists; reflexivity.
  - intros Hpa. destruct prim; try done; eexists; reflexivity.
Qed.

(** X12. The two implementations of [getitem] differ by the conversion
    only: the VM-coupled one returns what the pure one returns, passed
    through [vm.convert], and fails as the pure one fails, without
    converting; with a VM that converts nothing they agree.  The
    implementation of [resolve] is the VM-coupled [getitem]. *)
Theorem vm_getitem_converts :
  ∃ (fn : impl) (vfn : vm_impl),
    py_implementations !! primops.getitem = Some fn ∧
    vm_implementations !! primops.getitem = Some vfn ∧
    vm_implementations !! primops.resolve = Some vfn ∧
    (∀ vm args h, vfn vm args h = (v ← fn args; convert vm v) h) ∧
    (∀ vm args h e h', fn args h = (Raise e, h') →
       vfn vm args h = (Raise e, h')) ∧
    (∀ vm, (∀ v h, convert vm v h = (Ok v, h)) →
       ∀ args h, vfn vm args h = fn args h).
Proof.
  exists (arity2 getitem), (λ vm, arity2 (_vm_getitem vm)).
  assert (Hconv : ∀ vm args h,
    arity2 (_vm_getitem vm) args h
    = (v ← arity2 getitem args; convert vm v) h).
  { intros vm args h.
    destruct args as [|x [|y [|z args]]]; reflexivity. }
  repeat split; try reflexivity.
  - exact Hconv.
  - intros vm args h e h' Hfn. rewrite Hconv.
    unfold mbind, M_bind. by rewrite Hfn.
  - intros vm Hid args h. rewrite Hconv. unfold mbind, M_bind.
    destruct (arity2 getitem args h) as [[v|e] h']; [apply Hid | done].
Qed.

End MoreRegistry.

(** ** More on the iterator protocol *)

Section MoreIterators.
Context {host : PyHost}.

(** X13. [hasnext] tells whether [next] will succeed: at any cursor
    [k >= 0] over a tuple or list, [hasnext] is true exactly when [next]
    returns, and false exactly when [next] raises [IndexError]. *)
Theorem hasnext_guards_next h src xs (k : Z) :
  sequence_of h src = Some xs → (0 ≤ k)%Z →
  ((_hasnext (VTuple [VInt k; src]) h).1 = Ok (VBool true) ↔
   ∃ r, (_next (VTuple [VInt k; src]) h).1 = Ok r) ∧
  ((_hasnext (VTuple [VInt k; src]) h).1 = Ok (VBool false) ↔
   (_next (VTuple [VInt k; src]) h).1 = Raise IndexError).
Proof.
  intros Hseq Hk.
  rewrite (_hasnext_sequence _ _ _ _ Hseq), (_next_sequence _ _ _ _ Hseq).
  simpl. destruct (k <? Z.of_nat (length xs))%Z eqn:Hlt.
  - apply Z.ltb_lt in Hlt.
    destruct (lookup_lt_is_Some_2 xs (Z.to_nat k)) as [x Hx]; [lia|].
    rewrite (seq_index_nonneg _ _ _ Hk Hx). simpl.
    split; split; try done. by eexists.
  - apply Z.ltb_ge in Hlt. rewrite (seq_index_beyond _ _ Hlt). simpl.
    split; split; try done. by intros [r ?].
Qed.

(** X14. [setitem] does not disturb an iterator: after any call of
    [setitem], on the source of the iterator or on anything else,
    [hasnext] and [next] on the iterator return what they returned
    before. *)
Theorem iterator_survives_setitem h src xs (k : Z) d i v :
  sequence_of h src = Some xs →
  (_next (VTuple [VInt k; src]) (setitem d i v h).2).1
    = (_next (VTuple [VInt k; src]) h).1 ∧
  (_hasnext (VTuple [VInt k; src]) (setitem d i v h).2).1
    = (_hasnext (VTuple [VInt k; src]) h).1.
Proof.
  intros Hseq.
  pose proof (prefix_sequence_of _ _ _ _ (setitem_extends d i v h) Hseq)
    as Hseq'.
  rewrite !(_next_sequence _ _ _ _ Hseq), !(_next_sequence _ _ _ _ Hseq').
  by rewrite !(_hasnext_sequence _ _ _ _ Hseq),
             !(_hasnext_sequence _ _ _ _ Hseq').
Qed.

End MoreIterators.

Lemma hasnext_guards_next_witness :
  (@_hasnext bare_host (VTuple [VInt 3; VTuple [VInt 7; VInt 8; VInt 9]]) []).1
    = Ok (VBool false) ∧
  (@_next bare_host (VTuple [VInt 3; VTuple [VInt 7; VInt 8; VInt 9]]) []).1
    = Raise IndexError.
Proof.
  destruct (@hasnext_guards_next bare_host []
              (VTuple [VInt 7; VInt 8; VInt 9]) [VInt 7; VInt 8; VInt 9] 3
              eq_refl) as [_ [Hfalse _]]; [lia|].
  split; [reflexivity | by apply Hfalse].
Defined.

(** The list at address 0 is iterated from cursor 1 while position 1 of
    it is given to [setitem]. *)
Lemma iterator_survives_setitem_witness :
  (@_next bare_host (VTuple [VInt 1; VRef 0])
     (@setitem bare_host (VRef 0) (VInt 1) (VInt 9)
        [OList [VInt 7; VInt 8]]).2).1
  = Ok (VTuple [VInt 8; VTuple [VInt 2; VRef 0]]).
Proof.
  destruct (@iterator_survives_setitem bare_host [OList [VInt 7; VInt 8]]
              (VRef 0) [VInt 7; VInt 8] 1 (VRef 0) (VInt 1) (VInt 9) eq_refl)
    as [Hnext _].
  rewrite Hnext. reflexivity.
Defined.

(** ** More on the array primitives *)

(** Taking every slice of an array of shape [outer × len × inner] along
    the middle axis and putting the slices back gives the array. *)
Lemma position_encode len inner k :
  0 < len * inner →
  (k / (len * inner) * len + (k / inner) `mod` len) * inner + k `mod` inner
  = k.
Proof.
  intros Hpos.
  assert (Hinner : inner ≠ 0) by lia.
  assert (Hlen : len ≠ 0) by lia.
  replace (k / (len * inner)) with (k / inner / len)
    by (rewrite Nat.Div0.div_div; f_equal; lia).
  pose proof (Nat.div_mod_eq (k / inner) len) as Hq.
  pose proof (Nat.div_mod_eq k inner) as Hk.
  nia.
Qed.

Lemma slice_at_lookup len inner (d : list npval) o i j :
  j < len →
  slice_at len inner d o i !! j = Some (d !!! ((o * len + j) * inner + i)).
Proof.
  intros Hj. unfold slice_at.
  by rewrite list_lookup_fmap, lookup_seq_lt by done.
Qed.

Lemma gather_slices outer len inner rs ys :
  length ys = outer * len * inner →
  (∀ o i, o < outer → i < inner →
     rs !! (o * inner + i) = Some (slice_at len inner ys o i)) →
  gather outer len inner rs = ys.
Proof.
  intros Hlen Hrs. apply list_eq. intros k.
  unfold gather. rewrite list_lookup_fmap.
  destruct (decide (k < outer * len * inner)) as [Hk|Hk].
  - rewrite lookup_seq_lt by done. simpl.
    assert (Hpos : 0 < len * inner) by nia.
    assert (Ho : k / (len * inner) < outer).
    { apply Nat.Div0.div_lt_upper_bound. nia. }
    assert (Hi : k `mod` inner < inner) by (apply Nat.mod_upper_bound; lia).
    assert (Hj : (k / inner) `mod` len < len)
      by (apply Nat.mod_upper_bound; lia).
    rewrite (list_lookup_total_correct _ _ _ (Hrs _ _ Ho Hi)).
    rewrite (list_lookup_total_correct _ _ _
               (slice_at_lookup len inner ys _ _ _ Hj)).
    rewrite position_encode by done.
    symmetry. apply list_lookup_lookup_total_lt. lia.
  - rewrite lookup_seq_ge by lia. simpl.
    symmetry. apply lookup_ge_None. lia.
Qed.

(** A conversion applied element by element commutes with taking a
    slice. *)
Lemma mapM_res_slice_at (c : npval → res npval) len inner d ys o i :
  mapM_res c d = Ok ys →
  (∀ j, j < len → (o * len + j) * inner + i < length d) →
  mapM_res c (slice_at len inner d o i) = Ok (slice_at len inner ys o i).
Proof.
  intros Hc Hin. unfold slice_at.
  assert (H : ∀ js, Forall (λ j, j < len) js →
    mapM_res c ((λ j, d !!! ((o * len + j) * inner + i)) <$> js)
    = Ok ((λ j, ys !!! ((o * len + j) * inner + i)) <$> js)).
  { induction 1 as [|j js Hj _ IH]; [done|].
    rewrite !fmap_cons. cbn [mapM_res].
    destruct (lookup_lt_is_Some_2 d _ (Hin j Hj)) as [x Hx].
    destruct (mapM_res_lookup _ _ _ _ _ Hc Hx) as (y & Hy & Hcx).
    rewrite (list_lookup_total_correct _ _ _ Hx),
            (list_lookup_total_correct _ _ _ Hy), Hcx, IH.
    done. }
  apply H. apply Forall_forall. intros j Hj. apply elem_of_seq in Hj. lia.
Qed.

Lemma foldr_mul_zero (l : list nat) : 0 ∈ l → foldr Nat.mul 1 l = 0.
Proof.
  induction l as [|n l IH]; [by intros ?%elem_of_nil|].
  intros [<-|Hin]%elem_of_cons; simpl; [done|]. rewrite IH by done. lia.
Qed.

Lemma normalize_axis_index_in_range (k : Z) nd :
  (0 ≤ k < Z.of_nat nd)%Z →
  normalize_axis_index (VInt k) nd = Ok (Z.to_nat k) ∧
  normalize_axis_index (VInt (k - Z.of_nat nd)) nd = Ok (Z.to_nat k).
Proof.
  intros Hk. unfold normalize_axis_index. simpl. split.
  - replace (- Z.of_nat nd <=? k)%Z with true
      by (symmetry; apply Z.leb_le; lia).
    replace (k <? Z.of_nat nd)%Z with true by (symmetry; apply Z.ltb_lt; lia).
    replace (k <? 0)%Z with false by (symmetry; apply Z.ltb_ge; lia).
    done.
  - replace (- Z.of_nat nd <=? k - Z.of_nat nd)%Z with true
      by (symmetry; apply Z.leb_le; lia).
    replace (k - Z.of_nat nd <? Z.of_nat nd)%Z with true
      by (symmetry; apply Z.ltb_lt; lia).
    replace (k - Z.of_nat nd <? 0)%Z with true
      by (symmetry; apply Z.ltb_lt; lia).
    simpl. do 2 f_equal. lia.
Qed.

Section MoreArrays.
Context {host : PyHost}.

Lemma map_loop_pure fn g dt xs h :
  pure_unary fn g →
  map_loop fn dt xs h
  = (mapM_res (λ x, np_cast dt (g (item0 dt x))) xs, h).
Proof.
  intros Hfn. induction xs as [|x xs IH]; [done|].
  cbn [map_loop mapM_res].
  unfold mbind at 1, M_bind at 1. rewrite Hfn.
  unfold mbind at 1, M_bind at 1, lift.
  destruct (np_cast dt (g (item0 dt x))) as [y|e]; simpl; [|done].
  unfold mbind, M_bind. rewrite IH.
  by destruct (mapM_res _ _).
Qed.

(** X15. [array_map] is the element-wise map: on an array of rank at
    least 1 that has elements, with a [fn] that is a function of its
    argument, the result has the shape and the element type of the
    argument, and its element at each position is [fn] of the element at
    that position, stored as an element of that type; no element is
    moved, whatever the number of axes.  The elements reach [fn] as 0-d
    arrays. *)
Theorem array_map_elementwise fn g a len rest ys h :
  pure_unary fn g →
  nd_shape a = len :: rest →
  length (nd_data a) = len * foldr Nat.mul 1 rest →
  0 < length (nd_data a) →
  mapM_res (λ x, np_cast (nd_dtype a) (g (item0 (nd_dtype a) x))) (nd_data a)
    = Ok ys →
  array_map fn (VArray a) h
  = (Ok (VArray (mk_ndarray (nd_dtype a) (nd_shape a) ys)), h).
Proof.
  intros Hfn Hshape Hsize Hpos Hys.
  set (dt := nd_dtype a) in *.
  set (inner := foldr Nat.mul 1 rest) in *.
  set (c := λ x, np_cast dt (g (item0 dt x))) in *.
  set (per_slice := λ ary : list npval,
         match ary with
         | [] => Raise ValueError
         | _ => mapM_res c ary
         end).
  assert (Hlen : 0 < len) by nia.
  assert (Hinner : 0 < inner) by nia.
  assert (Hslice : ∀ i, i < inner →
    per_slice (slice_at len inner (nd_data a) 0 i)
    = Ok (slice_at len inner ys 0 i)).
  { intros i Hi. unfold per_slice.
    pose proof (slice_at_length len inner (nd_data a) 0 i) as Hl.
    destruct (slice_at len inner (nd_data a) 0 i) eqn:Hs;
      [simpl in Hl; lia|].
    rewrite <- Hs. apply mapM_res_slice_at; [done|].
    intros j Hj. rewrite Hsize.
    pose proof (position_bound 1 len inner 0 j i) as Hb. lia. }
  destruct (mapM_res_total per_slice (slices 1 len inner (nd_data a)))
    as [rs Hrs].
  { apply Forall_forall. intros s Hs.
    apply slices_elem in Hs as (o & i & Ho & Hi & ->).
    assert (o = 0) as -> by lia. rewrite Hslice by done. by eexists. }
  assert (Hgather : gather 1 len inner rs = ys).
  { apply gather_slices.
    - rewrite (mapM_res_length _ _ _ Hys), Hsize. lia.
    - intros o i Ho Hi. assert (o = 0) as -> by lia.
      destruct (mapM_res_lookup _ _ _ _ _ Hrs
                  (slices_lookup 1 len inner (nd_data a) 0 i Ho Hi))
        as (r & Hr & Hres).
      rewrite Hslice in Hres by done. by injection Hres as <-. }
  unfold array_map, mbind at 1, M_bind at 1. simpl.
  unfold fmap, M_fmap, apply_along_axis, mbind at 1, M_bind at 1, lift.
  rewrite Hshape.
  rewrite (proj1 (normalize_axis_index_in_range 0 (length (len :: rest))
                    ltac:(simpl; lia))).
  change (Z.to_nat 0) with 0.
  cbn [take drop foldr lookup list_lookup default from_option].
  rewrite drop_0. unfold id. fold inner dt.
  rewrite decide_False by lia.
  unfold mbind, M_bind.
  rewrite (mapM_st_pure _ per_slice).
  - by rewrite Hrs, Hgather.
  - intros ary h0. unfold nditer, per_slice.
    destruct ary; [done|]. by apply map_loop_pure.
Qed.

Lemma scan_loop_drop_acc fn dt init xs h :
  scan_loop (drop_acc fn) dt init xs h = map_loop fn dt xs h.
Proof.
  revert init h. induction xs as [|x xs IH]; intros init h; [done|].
  cbn [scan_loop map_loop]. unfold mbind at 1 4, M_bind at 1 4.
  cbn [drop_acc].
  destruct (fn [item0 dt x] h) as [[v|e] h1]; [|done].
  unfold mbind at 1 3, M_bind at 1 3.
  destruct (lift (np_cast dt v) h1) as [[y|e] h2]; [|done].
  unfold mbind, M_bind. by rewrite IH.
Qed.

(** X16. A scan that does not look at the running value is a map: along
    axis 0, [array_scan] with [lambda acc, x: fn(x)] returns what
    [array_map] returns with [fn], for any [fn], initial value and
    array, errors and effects on the store included. *)
Theorem array_scan_drop_acc_is_map fn init array h :
  array_scan (drop_acc fn) init array (VInt 0) h = array_map fn array h.
Proof.
  unfold array_scan, array_map, mbind, M_bind.
  destruct (asanyarray array h) as [[a|e] h1]; [|done].
  unfold fmap, M_fmap, apply_along_axis, mbind, M_bind.
  destruct (lift _ h1) as [[k|e] h2]; [|done].
  case_decide; [done|].
  rewrite (mapM_st_ext _
    (λ ary, nditer ary (map_loop fn (nd_dtype a) ary))); [done|].
  intros ary h0. destruct ary; [done|]. apply scan_loop_drop_acc.
Qed.

End MoreArrays.

(** The successor of each element of a 2 × 2 array of integers. *)
Lemma array_map_elementwise_witness :
  @array_map bare_host int_succ
    (VArray (mk_ndarray int64 [2; 2] [NInt 1; NInt 2; NInt 3; NInt 4])) []
  = (Ok (VArray (mk_ndarray int64 [2; 2] [NInt 2; NInt 3; NInt 4; NInt 5])),
     []).
Proof.
  apply (@array_map_elementwise bare_host int_succ succ_value
           (mk_ndarray int64 [2; 2] [NInt 1; NInt 2; NInt 3; NInt 4])
           2 [2] [NInt 2; NInt 3; NInt 4; NInt 5] []).
  - intros a h. reflexivity.
  - reflexivity.
  - reflexivity.
  - simpl. lia.
  - reflexivity.
Defined.


Section Reduce.
Context {host : PyHost}.



End Reduce.


Lemma normalize_axis_index_bound axis nd k :
  normalize_axis_index axis nd = Ok k → k < nd.
Proof.
  unfold normalize_axis_index. destruct (as_index axis) as [i|]; [|done].
  destruct (- Z.of_nat nd <=? i)%Z eqn:Hlo; [|by destruct (in_c_int i)].
  destruct (i <? Z.of_nat nd)%Z eqn:Hhi; [|by destruct (in_c_int i)].
  apply Z.leb_le in Hlo. apply Z.ltb_lt in Hhi. simpl.
  intros [= <-]. destruct (i <? 0)%Z eqn:Hneg.
  - apply Z.ltb_lt in Hneg. lia.
  - apply Z.ltb_ge in Hneg. lia.
Qed.

Section ArrayEdges.
Context {host : PyHost}.

Lemma map_loop_ext fn1 fn2 dt xs h :
  (∀ a h, fn1 [a] h = fn2 [a] h) →
  map_loop fn1 dt xs h = map_loop fn2 dt xs h.
Proof.
  intros Hfn. revert h. induction xs as [|x xs IH]; intros h; [done|].
  cbn [map_loop]. unfold mbind at 1 4, M_bind at 1 4. rewrite Hfn.
  destruct (fn2 [item0 dt x] h) as [[v|e] h1]; [|done].
  unfold mbind at 1 3, M_bind at 1 3.
  destruct (lift (np_cast dt v) h1) as [[y|e] h2]; [|done].
  unfold mbind, M_bind. by rewrite IH.
Qed.

Lemma array_map_ext fn1 fn2 array h :
  (∀ a h, fn1 [a] h = fn2 [a] h) →
  array_map fn1 array h = array_map fn2 array h.
Proof.
  intros Hfn. unfold array_map, mbind, M_bind.
  destruct (asanyarray array h) as [[a|e] h1]; [|done].
  unfold fmap, M_fmap, apply_along_axis, mbind, M_bind.
  destruct (lift _ h1) as [[k|e] h2]; [|done].
  case_decide; [done|].
  rewrite (mapM_st_ext _
    (λ ary, nditer ary (map_loop fn2 (nd_dtype a) ary))); [done|].
  intros ary h0. destruct ary; [done|]. by apply map_loop_ext.
Qed.

(** X18. The VM-coupled [array_map] and [array_scan] run the loops of
    the pure ones, on a closure that calls [fn] through [vm.call]:
    [array_map] calls it on one argument and [array_scan] on two, so the
    VM-coupled and the pure implementation return the same, store
    included, as soon as [vm.call] is the direct call on that many
    arguments. *)
Theorem vm_array_loops_shared vm fn init array axis h :
  ((∀ x h, call vm fn [x] h = call_value recursion_limit fn [x] h) →
   _array_map_vm vm fn array h
   = array_map (call_value recursion_limit fn) array h) ∧
  ((∀ a b h, call vm fn [a; b] h = call_value recursion_limit fn [a; b] h) →
   _array_scan_vm vm fn init array axis h
   = array_scan (call_value recursion_limit fn) init array axis h).
Proof.
  split; intros Hcall.
  - by apply array_map_ext.
  - by apply array_scan_ext.
Qed.

(** X19. The axis of [array_scan] may be counted from the last one: for
    an array of rank [nd] and [0 <= k < nd], the axis [k - nd] gives
    what the axis [k] gives. *)
Theorem array_scan_negative_axis fn init a (k : Z) h :
  (0 ≤ k < Z.of_nat (length (nd_shape a)))%Z →
  array_scan fn init (VArray a) (VInt (k - Z.of_nat (length (nd_shape a)))) h
  = array_scan fn init (VArray a) (VInt k) h.
Proof.
  intros Hk.
  destruct (normalize_axis_index_in_range k _ Hk) as [Hpos Hneg].
  unfold array_scan, mbind, M_bind, fmap, M_fmap. simpl.
  unfold apply_along_axis, mbind, M_bind, lift. by rewrite Hpos, Hneg.
Qed.

Lemma apply_along_axis_no_elements
    (func1d : np_dtype → list npval → M (list npval)) axis a k h :
  (∀ dt h, func1d dt [] h = (Raise ValueError, h)) →
  0 ∈ nd_shape a →
  normalize_axis_index axis (length (nd_shape a)) = Ok k →
  apply_along_axis func1d axis a h = (Raise ValueError, h).
Proof.
  intros Hempty Hzero Hk.
  unfold apply_along_axis, mbind at 1, M_bind at 1, lift. rewrite Hk.
  case_decide as Hprod; [done|].
  pose proof (normalize_axis_index_bound _ _ _ Hk) as Hlt.
  destruct (lookup_lt_is_Some_2 (nd_shape a) k Hlt) as [len Hlen].
  assert (len = 0) as ->.
  { rewrite <- (take_drop_middle _ _ _ Hlen) in Hzero.
    apply elem_of_app in Hzero as [Hin|Hin].
    - apply foldr_mul_zero in Hin. rewrite Hin in Hprod. lia.
    - apply elem_of_cons in Hin as [->|Hin]; [done|].
      apply foldr_mul_zero in Hin. rewrite Hin in Hprod. lia. }
  rewrite Hlen. simpl default.
  set (outer := foldr Nat.mul 1 (take k (nd_shape a))) in *.
  set (inner := foldr Nat.mul 1 (drop (S k) (nd_shape a))) in *.
  pose proof (slices_lookup outer 0 inner (nd_data a) 0 0) as Hs.
  simpl in Hs.
  destruct (slices outer 0 inner (nd_data a)) as [|s ss].
  - rewrite lookup_nil in Hs. discriminate Hs; lia.
  - simpl in Hs. assert (s = []) as ->.
    { assert (Some s = Some []) as [= ->]; [apply Hs; lia | done]. }
    unfold mbind, M_bind. cbn [mapM_st]. unfold mbind, M_bind.
    by rewrite Hempty.
Qed.

(** X20. Where the array primitives refuse their array, before [fn] is
    ever called: for an integer axis outside [-nd, nd), [array_scan]
    raises [AxisError] when the axis fits a C [int] and [OverflowError]
    when it does not; [array_map] raises [AxisError] on a 0-d array,
    which has no axis 0; on an array one of whose dimensions is 0 both
    raise [ValueError]. *)
Theorem array_iteration_errors fn init a h :
  (∀ k : Z, (k < - Z.of_nat (length (nd_shape a)) ∨
             Z.of_nat (length (nd_shape a)) ≤ k)%Z →
     array_scan fn init (VArray a) (VInt k) h
     = (Raise (if in_c_int k then AxisError else OverflowError), h)) ∧
  (nd_shape a = [] → array_map fn (VArray a) h = (Raise AxisError, h)) ∧
  (0 ∈ nd_shape a →
     array_map fn (VArray a) h = (Raise ValueError, h) ∧
     ∀ axis k, normalize_axis_index axis (length (nd_shape a)) = Ok k →
       array_scan fn init (VArray a) axis h = (Raise ValueError, h)).
Proof.
  split; [|split].
  - intros k Hk.
    unfold array_scan, mbind, M_bind, fmap, M_fmap. simpl.
    unfold apply_along_axis, mbind, M_bind, lift, normalize_axis_index.
    simpl.
    destruct Hk as [Hk|Hk].
    + replace (- Z.of_nat (length (nd_shape a)) <=? k)%Z with false
        by (symmetry; apply Z.leb_gt; lia).
      simpl. by destruct (in_c_int k).
    + replace (k <? Z.of_nat (length (nd_shape a)))%Z with false
        by (symmetry; apply Z.ltb_ge; lia).
      rewrite andb_false_r. by destruct (in_c_int k).
  - intros Hshape.
    unfold array_map, mbind, M_bind, fmap, M_fmap. simpl.
    unfold apply_along_axis, mbind, M_bind, lift. by rewrite Hshape.
  - intros Hzero. split.
    + destruct (nd_shape a) as [|len rest] eqn:Hshape;
        [by apply elem_of_nil in Hzero|].
      unfold array_map, mbind, M_bind, fmap, M_fmap. simpl.
      rewrite (apply_along_axis_no_elements _ (VInt 0) a 0); try done.
      * by rewrite Hshape.
      * rewrite Hshape.
        apply (normalize_axis_index_in_range 0 (length (len :: rest))).
        simpl. lia.
    + intros axis k Hk.
      unfold array_scan, mbind, M_bind, fmap, M_fmap. simpl.
      by rewrite (apply_along_axis_no_elements _ axis a k).
Qed.

(** X21. [shape] of an array is the tuple of its dimensions, and the
    scalar primitives accept an array exactly when [shape] gives the
    empty tuple for it. *)
Theorem shape_of_array a h :
  shape (VArray a) h
  = (Ok (VTuple ((λ n, VInt (Z.of_nat n)) <$> nd_shape a)), h) ∧
  ((scalar_uadd (VArray a) h).1 = Ok (VArray a) ↔
   (shape (VArray a) h).1 = Ok (VTuple [])) ∧
  ((scalar_uadd (VArray a) h).1 = Raise TypeError ↔
   (shape (VArray a) h).1 ≠ Ok (VTuple [])).
Proof.
  assert (Hshape : shape (VArray a) h
    = (Ok (VTuple ((λ n, VInt (Z.of_nat n)) <$> nd_shape a)), h)) by done.
  split; [done|]. rewrite Hshape.
  unfold scalar_uadd, mbind, M_bind, lift. simpl.
  destruct (nd_shape a) as [|n ns]; simpl.
  - split; split; congruence.
  - split; split; congruence.
Qed.

End ArrayEdges.

Lemma vm_array_loops_shared_witness :
  @_array_map_vm bare_host (@direct_vm bare_host) (VFun 0)
    (VArray (mk_ndarray int64 [2] [NInt 1; NInt 2])) []
  = @array_map bare_host (@call_value bare_host 1000 (VFun 0))
    (VArray (mk_ndarray int64 [2] [NInt 1; NInt 2])) [].
Proof.
  destruct (@vm_array_loops_shared bare_host (@direct_vm bare_host) (VFun 0)
              VNone (VArray (mk_ndarray int64 [2] [NInt 1; NInt 2]))
              (VInt 0) []) as [Hmap _].
  apply Hmap. intros x h. reflexivity.
Defined.

(** The last axis of a 2 × 2 array, named [-1] or [1]. *)
Lemma array_scan_negative_axis_witness :
  @array_scan bare_host total_add (VInt 0)
    (VArray (mk_ndarray int64 [2; 2] [NInt 1; NInt 2; NInt 3; NInt 4]))
    (VInt (-1)) []
  = (Ok (VArray (mk_ndarray int64 [2; 2] [NInt 1; NInt 3; NInt 3; NInt 7])),
     []).
Proof.
  refine (eq_trans
    (@array_scan_negative_axis bare_host total_add (VInt 0)
       (mk_ndarray int64 [2; 2] [NInt 1; NInt 2; NInt 3; NInt 4]) 1 [] _) _).
  - simpl. lia.
  - reflexivity.
Defined.

(** An array of shape [0] has nothing to iterate on; the axis 2 of a
    1-D array does not exist, and the axis [2 ^ 31] is no C [int]. *)
Lemma array_iteration_errors_witness :
  @array_map bare_host int_succ (VArray (mk_ndarray int64 [0] [])) []
    = (Raise ValueError, []) ∧
  @array_scan bare_host total_add (VInt 0)
    (VArray (mk_ndarray int64 [3] [NInt 1; NInt 2; NInt 3])) (VInt 2) []
    = (Raise AxisError, []) ∧
  @array_scan bare_host total_add (VInt 0)
    (VArray (mk_ndarray int64 [3] [NInt 1; NInt 2; NInt 3]))
    (VInt (2 ^ 31)) []
    = (Raise OverflowError, []).
Proof.
  split.
  - destruct (@array_iteration_errors bare_host int_succ (VInt 0)
                (mk_ndarray int64 [0] []) []) as (_ & _ & Hzero).
    apply Hzero. simpl. by left.
  - destruct (@array_iteration_errors bare_host total_add (VInt 0)
                (mk_ndarray int64 [3] [NInt 1; NInt 2; NInt 3]) [])
      as (Haxis & _ & _).
    split.
    + exact (Haxis 2%Z ltac:(simpl; lia)).
    + exact (Haxis (2 ^ 31)%Z ltac:(simpl; lia)).
Defined.

Lemma shape_of_array_witness :
  (@shape bare_host (VArray (mk_ndarray int64 [] [NInt 5])) []).1
    = Ok (VTuple []) ∧
  (scalar_uadd (VArray (mk_ndarray int64 [] [NInt 5])) []).1
    = Ok (VArray (mk_ndarray int64 [] [NInt 5])).
Proof.
  destruct (@shape_of_array bare_host (mk_ndarray int64 [] [NInt 5]) [])
    as (_ & Hscalar & _).
  split; [reflexivity | by apply Hscalar].
Defined.

Lemma registry_coverage_witness :
  is_Some (@py_implementations bare_host !! primops.getitem) ∧
  is_Some (@vm_implementations bare_host !! primops.resolve).
Proof.
  destruct (@registry_coverage bare_host) as (_ & _ & _ & Hall).
  split.
  - by apply (Hall primops.getitem).
  - by apply (Hall primops.resolve).
Defined.

(** Indexing the empty tuple fails in the VM-coupled [getitem] as it
    does in the pure one. *)
Lemma vm_getitem_converts_witness :
  ∃ vfn, @vm_implementations bare_host !! primops.getitem = Some vfn ∧
         vfn (@direct_vm bare_host) [VTuple []; VInt 0] []
         = (Raise IndexError, []).
Proof.
  destruct (@vm_getitem_converts bare_host)
    as (fn & vfn & Hpy & Hvm & _ & _ & Hraise & _).
  exists vfn. split; [exact Hvm|].
  apply Hraise.
  assert (Hfn : Some fn = Some (arity2 (@getitem bare_host)))
    by (rewrite <- Hpy; reflexivity).
  injection Hfn as ->. reflexivity.
Defined.

(** ** Comparisons and [bool_not] *)

Section Comparisons.
Context {host : PyHost}.

(** X22. [bool_not] composes with the comparisons of integers, whose
    results are booleans: the negation of [scalar_eq] is [scalar_ne], of
    [scalar_lt] is [scalar_ge], of [scalar_gt] is [scalar_le], and back.
    It does not take a number for a truth value: applied to the integer
    that [scalar_add] returns it raises [AssertionError]. *)
Theorem bool_not_of_comparison (a b : Z) h :
  (r ← scalar_eq (VInt a) (VInt b); bool_not r) h
    = scalar_ne (VInt a) (VInt b) h ∧
  (r ← scalar_ne (VInt a) (VInt b); bool_not r) h
    = scalar_eq (VInt a) (VInt b) h ∧
  (r ← scalar_lt (VInt a) (VInt b); bool_not r) h
    = scalar_ge (VInt a) (VInt b) h ∧
  (r ← scalar_ge (VInt a) (VInt b); bool_not r) h
    = scalar_lt (VInt a) (VInt b) h ∧
  (r ← scalar_gt (VInt a) (VInt b); bool_not r) h
    = scalar_le (VInt a) (VInt b) h ∧
  (r ← scalar_le (VInt a) (VInt b); bool_not r) h
    = scalar_gt (VInt a) (VInt b) h ∧
  (r ← scalar_add (VInt a) (VInt b); bool_not r) h
    = (Raise AssertionError, h).
Proof.
  repeat split;
    unfold scalar_eq, scalar_ne, scalar_lt, scalar_ge, scalar_gt, scalar_le,
      scalar_add, mbind, M_bind, py_binop, lift, mret, M_ret; simpl;
    try done;
    try (by rewrite negb_involutive);
    repeat match goal with
      | |- context [(?x <? ?y)%Z] => destruct (Z.ltb_spec x y)
      | |- context [(?x <=? ?y)%Z] => destruct (Z.leb_spec x y)
      end; simpl; try done; lia.
Qed.

End Comparisons.
